(** * Wake scheduler and session event queue

    Shallow embedding of [src/infra/heartbeat-wake.ts] (the heartbeat wake
    scheduler: a coalescing timer, a retry counter and a re-entrancy guard)
    and of the session event queue that [src/infra/system-events.test.ts]
    exercises.

    The scheduler is a TypeScript module with six module-level variables and
    one [async] timer callback.  The embedding keeps the variables as fields
    of a record, and makes the host explicit: the clock, the table of
    outstanding [setTimeout] handles, the callbacks suspended at their
    [await], the trace of handler invocations and the warnings logged. *)

From Stdlib Require Import String Ascii List Arith Bool Lia.
From stdpp Require Import base option list strings gmap.
Import ListNotations.

Local Open Scope string_scope.
Local Open Scope list_scope.
Local Open Scope nat_scope.

(** ** The wake scheduler *)

Module HeartbeatWake.

(** [HeartbeatRunResult]: the tagged union the handler resolves to. *)
Inductive HeartbeatRunResult : Type :=
| ran (durationMs : nat)
| skipped (reason : string)
| failed (reason : string).

(** What [await active(...)] yields: the promise resolves to a result, or it
    rejects and control enters the [catch] block. *)
Inductive Settled : Type :=
| resolved (res : HeartbeatRunResult)
| rejected.

(** A handler is a caller-supplied function; the scheduler only stores it,
    tests it against [null] and calls it, so a handler is represented by a
    name, and what it answers is supplied when its promise settles. *)
Definition HeartbeatWakeHandler : Type := nat.

(** An outstanding [setTimeout] handle.  [delay] is the [coalesceMs] the
    callback closure has captured. *)
Record Timeout : Type := mkTimeout {
  tid : nat;
  deadline : nat;
  delay : nat
}.

(** A timer callback suspended at [await active(...)]: the locals [reason]
    and [coalesceMs] of its closure. *)
Record Suspended : Type := mkSuspended {
  s_reason : option string;
  s_coalesceMs : nat
}.

(** One handler invocation: which handler, and the [reason] it was given
    ([None] is [undefined]). *)
Record Invocation : Type := mkInvocation {
  i_handler : HeartbeatWakeHandler;
  i_reason : option string
}.

Record World : Type := mkWorld {
  (* the module's variables *)
  handler : option HeartbeatWakeHandler;
  pendingReason : option string;
  scheduled : bool;
  running : bool;
  timer : option nat;
  retryCount : nat;
  (* the host *)
  now : nat;
  timeouts : list Timeout;
  nextId : nat;
  suspended : list Suspended;
  invocations : list Invocation;
  warnings : list string
}.

Definition DEFAULT_COALESCE_MS : nat := 250.
Definition DEFAULT_RETRY_MS : nat := 1000.
Definition MAX_RETRIES : nat := 10.

Definition init : World :=
  {| handler := None; pendingReason := None; scheduled := false;
     running := false; timer := None; retryCount := 0;
     now := 0; timeouts := []; nextId := 0; suspended := [];
     invocations := []; warnings := [] |}.

(** Field updates. *)
Definition set_handler (v : option HeartbeatWakeHandler) (w : World) : World :=
  mkWorld v (pendingReason w) (scheduled w) (running w) (timer w)
    (retryCount w) (now w) (timeouts w) (nextId w) (suspended w)
    (invocations w) (warnings w).

Definition set_pendingReason (v : option string) (w : World) : World :=
  mkWorld (handler w) v (scheduled w) (running w) (timer w)
    (retryCount w) (now w) (timeouts w) (nextId w) (suspended w)
    (invocations w) (warnings w).

Definition set_scheduled (v : bool) (w : World) : World :=
  mkWorld (handler w) (pendingReason w) v (running w) (timer w)
    (retryCount w) (now w) (timeouts w) (nextId w) (suspended w)
    (invocations w) (warnings w).

Definition set_running (v : bool) (w : World) : World :=
  mkWorld (handler w) (pendingReason w) (scheduled w) v (timer w)
    (retryCount w) (now w) (timeouts w) (nextId w) (suspended w)
    (invocations w) (warnings w).

Definition set_timer (v : option nat) (w : World) : World :=
  mkWorld (handler w) (pendingReason w) (scheduled w) (running w) v
    (retryCount w) (now w) (timeouts w) (nextId w) (suspended w)
    (invocations w) (warnings w).

Definition set_retryCount (v : nat) (w : World) : World :=
  mkWorld (handler w) (pendingReason w) (scheduled w) (running w) (timer w)
    v (now w) (timeouts w) (nextId w) (suspended w)
    (invocations w) (warnings w).

Definition set_now (v : nat) (w : World) : World :=
  mkWorld (handler w) (pendingReason w) (scheduled w) (running w) (timer w)
    (retryCount w) v (timeouts w) (nextId w) (suspended w)
    (invocations w) (warnings w).

Definition set_timeouts (v : list Timeout) (w : World) : World :=
  mkWorld (handler w) (pendingReason w) (scheduled w) (running w) (timer w)
    (retryCount w) (now w) v (nextId w) (suspended w)
    (invocations w) (warnings w).

Definition set_nextId (v : nat) (w : World) : World :=
  mkWorld (handler w) (pendingReason w) (scheduled w) (running w) (timer w)
    (retryCount w) (now w) (timeouts w) v (suspended w)
    (invocations w) (warnings w).

Definition set_suspended (v : list Suspended) (w : World) : World :=
  mkWorld (handler w) (pendingReason w) (scheduled w) (running w) (timer w)
    (retryCount w) (now w) (timeouts w) (nextId w) v
    (invocations w) (warnings w).

Definition set_invocations (v : list Invocation) (w : World) : World :=
  mkWorld (handler w) (pendingReason w) (scheduled w) (running w) (timer w)
    (retryCount w) (now w) (timeouts w) (nextId w) (suspended w)
    v (warnings w).

Definition set_warnings (v : list string) (w : World) : World :=
  mkWorld (handler w) (pendingReason w) (scheduled w) (running w) (timer w)
    (retryCount w) (now w) (timeouts w) (nextId w) (suspended w)
    (invocations w) v.

(** JavaScript truthiness of a [string | null]: [null] and the empty string
    are falsy. *)
Definition truthy (o : option string) : bool :=
  match o with
  | Some s => negb (String.eqb s "")
  | None => false
  end.

(** [a ?? b] on a [string | null | undefined]. *)
Definition nullish (o : option string) (d : string) : string :=
  match o with
  | Some s => s
  | None => d
  end.

(** The host's [setTimeout(cb, ms)]: a fresh handle, due [ms] from now. *)
Definition setTimeout (ms : nat) (w : World) : nat * World :=
  (nextId w,
   set_nextId (S (nextId w))
     (set_timeouts (timeouts w ++ [mkTimeout (nextId w) (now w + ms) ms]) w)).

(** The host's [clearTimeout(t)]. *)
Definition clearTimeout (t : nat) (w : World) : World :=
  set_timeouts (List.filter (fun x => negb (Nat.eqb (tid x) t)) (timeouts w)) w.

(** [schedule(coalesceMs)], up to the point where the timer is armed; the
    callback it installs is [callback_start] followed by [callback_resume]. *)
Definition schedule (coalesceMs : nat) (w : World) : World :=
  match timer w with
  | Some _ => w
  | None =>
      let '(t, w1) := setTimeout coalesceMs w in
      set_timer (Some t) w1
  end.

(** The timer callback from its first line to the [await]. *)
Definition callback_start (coalesceMs : nat) (w : World) : World :=
  let w := set_timer None w in
  let w := set_scheduled false w in
  match handler w with
  | None => w
  | Some active =>
      if running w then
        schedule coalesceMs (set_scheduled true w)
      else
        let reason := pendingReason w in
        let w := set_pendingReason None w in
        let w := set_running true w in
        let w := set_invocations
                   (invocations w ++ [mkInvocation active reason]) w in
        set_suspended (suspended w ++ [mkSuspended reason coalesceMs]) w
  end.

Definition exhausted_message (reason : string) : string :=
  String.append "heartbeat wake retries exhausted (10), reason: " reason.

(** The retry path shared, textually twice in the source, by the transient
    skip branch and the [catch] block. *)
Definition retry_or_give_up (reason : option string) (why : string)
    (w : World) : World :=
  if MAX_RETRIES <=? retryCount w then
    set_retryCount 0 (set_warnings (warnings w ++ [exhausted_message why]) w)
  else
    let w := set_retryCount (S (retryCount w)) w in
    let w := set_pendingReason (Some (nullish reason "retry")) w in
    schedule DEFAULT_RETRY_MS w.

(** The [finally] block. *)
Definition callback_finally (coalesceMs : nat) (w : World) : World :=
  let w := set_running false w in
  if truthy (pendingReason w) || scheduled w then schedule coalesceMs w else w.

(** The timer callback from the [await] to its end. *)
Definition callback_resume (k : Suspended) (o : Settled) (w : World) : World :=
  let w :=
    match o with
    | resolved (skipped r) =>
        if negb (String.eqb r "disabled")
        then retry_or_give_up (s_reason k) r w
        else set_retryCount 0 w
    | resolved _ => set_retryCount 0 w
    | rejected => retry_or_give_up (s_reason k) "error" w
    end in
  callback_finally (s_coalesceMs k) w.

(** Options of [requestHeartbeatNow]; an absent [opts] is both fields
    absent. *)
Record WakeOpts : Type := mkWakeOpts {
  o_reason : option string;
  o_coalesceMs : option nat
}.

Definition setHeartbeatWakeHandler (next : option HeartbeatWakeHandler)
    (w : World) : World :=
  let w := set_handler next w in
  match handler w with
  | Some _ => if truthy (pendingReason w) then schedule DEFAULT_COALESCE_MS w else w
  | None => w
  end.

Definition requestHeartbeatNow (opts : WakeOpts) (w : World) : World :=
  let w :=
    set_pendingReason
      (Some (nullish (o_reason opts) (nullish (pendingReason w) "requested"))) w in
  schedule (default DEFAULT_COALESCE_MS (o_coalesceMs opts)) w.

Definition hasHeartbeatWakeHandler (w : World) : bool :=
  match handler w with Some _ => true | None => false end.

Definition hasPendingHeartbeatWake (w : World) : bool :=
  match pendingReason w with Some _ => true | None => false end
  || match timer w with Some _ => true | None => false end
  || scheduled w.

Definition resetHeartbeatWakeForTest (w : World) : World :=
  let w := set_handler None w in
  let w := set_pendingReason None w in
  let w := set_scheduled false w in
  let w := set_running false w in
  let w := match timer w with
           | Some t => clearTimeout t w
           | None => w
           end in
  let w := set_timer None w in
  set_retryCount 0 w.

(** *** The event loop *)

(** A timeout fires: the host drops the handle and runs the callback.  A
    handle that is not outstanding, or not yet due, cannot fire. *)
Definition timer_fires (t : nat) (w : World) : option World :=
  match List.find (fun x => Nat.eqb (tid x) t) (timeouts w) with
  | Some x =>
      if deadline x <=? now w
      then Some (callback_start (delay x) (clearTimeout t w))
      else None
  | None => None
  end.

(** The promise of the [i]-th suspended callback settles. *)
Definition handler_settles (i : nat) (o : Settled) (w : World) : option World :=
  match suspended w !! i with
  | Some k => Some (callback_resume k o (set_suspended (delete i (suspended w)) w))
  | None => None
  end.

Inductive Event : Type :=
| RequestHeartbeatNow (opts : WakeOpts)
| SetHeartbeatWakeHandler (next : option HeartbeatWakeHandler)
| ResetHeartbeatWakeForTest
| Elapse (ms : nat)
| TimerFires (t : nat)
| HandlerSettles (i : nat) (o : Settled).

Definition step (e : Event) (w : World) : option World :=
  match e with
  | RequestHeartbeatNow opts => Some (requestHeartbeatNow opts w)
  | SetHeartbeatWakeHandler next => Some (setHeartbeatWakeHandler next w)
  | ResetHeartbeatWakeForTest => Some (resetHeartbeatWakeForTest w)
  | Elapse ms => Some (set_now (now w + ms) w)
  | TimerFires t => timer_fires t w
  | HandlerSettles i o => handler_settles i o w
  end.

Fixpoint exec (es : list Event) (w : World) : option World :=
  match es with
  | [] => Some w
  | e :: es' =>
      match step e w with
      | Some w' => exec es' w'
      | None => None
      end
  end.

(** *** Notions used to state the scheduler's properties *)

(** The variable [timer] and the host's table of outstanding handles agree:
    the table holds exactly the handle [timer] names, or nothing. *)
Definition timer_slot_ok (w : World) : Prop :=
  match timer w with
  | None => timeouts w = []
  | Some t => exists x, timeouts w = [x] /\ tid x = t
  end.

Definition SchedulerInv (w : World) : Prop :=
  timer_slot_ok w /\ retryCount w <= MAX_RETRIES.

(** A sequence of [requestHeartbeatNow] calls. *)
Definition request_all (calls : list WakeOpts) (w : World) : World :=
  fold_left (fun acc o => requestHeartbeatNow o acc) calls w.

(** What the source's [??] chain leaves in [pendingReason] after a sequence
    of calls. *)
Definition reason_after (calls : list WakeOpts) (p : option string)
    : option string :=
  fold_left (fun acc o => Some (nullish (o_reason o) (nullish acc "requested")))
    calls p.

(** The handler result is transient for the scheduler: the condition of the
    [if] in the [try] block, or a rejection. *)
Definition transient (o : Settled) : bool :=
  match o with
  | resolved (skipped r) => negb (String.eqb r "disabled")
  | resolved _ => false
  | rejected => true
  end.

(** Events of a run in which nobody calls the module again and the handler
    only ever resolves to a non-[disabled] skip: time passes, timers fire,
    the handler's promise resolves. *)
Definition skip_only (e : Event) : bool :=
  match e with
  | Elapse _ => true
  | TimerFires _ => true
  | HandlerSettles _ (resolved (skipped r)) => negb (String.eqb r "disabled")
  | _ => false
  end.

(** Events other than a wake request. *)
Definition not_a_request (e : Event) : bool :=
  match e with
  | RequestHeartbeatNow _ => false
  | _ => true
  end.

(** Nothing is left to happen: no outstanding timer, no suspended callback. *)
Definition quiescent (w : World) : Prop :=
  timeouts w = [] /\ suspended w = [].

(** A fake-timer driver in the manner of the test file's [flush]: a settled
    promise resumes its callback first; otherwise the clock jumps to the
    oldest outstanding timer and fires it; otherwise the run is over.  The
    [n]-th invocation (from 0) resolves to [answer n]. *)
Fixpoint drive (answer : nat -> Settled) (fuel : nat) (w : World) : World :=
  match fuel with
  | 0 => w
  | S fuel' =>
      match suspended w with
      | _ :: _ =>
          match handler_settles 0 (answer (length (invocations w) - 1)) w with
          | Some w' => drive answer fuel' w'
          | None => w
          end
      | [] =>
          match timeouts w with
          | x :: _ =>
              match timer_fires (tid x) (set_now (Nat.max (now w) (deadline x)) w) with
              | Some w' => drive answer fuel' w'
              | None => w
              end
          | [] => w
          end
      end
  end.

(** The states a run of retries goes through: waiting for the timer with
    [k] retries used, and inside the [k]-th retry's invocation. *)
Definition waiting (k : nat) (w : World) : Prop :=
  (exists t x, timer w = Some t /\ timeouts w = [x] /\ tid x = t)
  /\ (exists h, handler w = Some h)
  /\ (exists p, pendingReason w = Some p)
  /\ running w = false /\ scheduled w = false
  /\ suspended w = [] /\ retryCount w = k
  /\ length (invocations w) = k /\ warnings w = [].

Definition invoking (k : nat) (w : World) : Prop :=
  timer w = None /\ timeouts w = []
  /\ (exists h, handler w = Some h)
  /\ pendingReason w = None
  /\ running w = true /\ scheduled w = false
  /\ (exists r c, suspended w = [mkSuspended (Some r) c])
  /\ retryCount w = k
  /\ length (invocations w) = S k /\ warnings w = [].

Definition given_up (w : World) : Prop :=
  timer w = None /\ timeouts w = []
  /\ pendingReason w = None
  /\ running w = false /\ scheduled w = false
  /\ suspended w = [] /\ retryCount w = 0
  /\ length (invocations w) = S MAX_RETRIES
  /\ (exists r, warnings w = [exhausted_message r]).

Definition retry_phase (w : World) : Prop :=
  (exists k, k <= MAX_RETRIES /\ waiting k w)
  \/ (exists k, k <= MAX_RETRIES /\ invoking k w)
  \/ given_up w.

(** The world right after the timer fired with a handler registered and no
    run in progress: the handle is gone, the pending reason is consumed and
    the invocation is in flight. *)
Definition begun (h : HeartbeatWakeHandler) (c : nat) (w : World) : World :=
  set_suspended (suspended w ++ [mkSuspended (pendingReason w) c])
    (set_invocations (invocations w ++ [mkInvocation h (pendingReason w)])
       (set_running true
          (set_pendingReason None
             (set_scheduled false (set_timer None (set_timeouts [] w)))))).

(** The reason the exhaustion warning names. *)
Definition why (o : Settled) : string :=
  match o with
  | resolved (skipped r) => r
  | _ => "error"
  end.

(** Nothing armed, nothing pending, nothing in flight. *)
Definition silent (w : World) : Prop :=
  timer w = None /\ timeouts w = [] /\ pendingReason w = None
  /\ suspended w = [].

(** The world an event sequence leads to from the initial one. *)
Definition after (es : list Event) : World := default init (exec es init).

(** The first scenario of the test file, stopped while the handler's promise
    is still pending: a handler is registered, a wake is requested with reason
    [hook:wake], the coalescing timer has fired. *)
Definition in_flight_world : World :=
  after [SetHeartbeatWakeHandler (Some 1);
         RequestHeartbeatNow (mkWakeOpts (Some "hook:wake") None);
         Elapse 300; TimerFires 0].

(** The retry behaviour at one completion: with retryCount below the
    maximum, the result [o] of the [i]-th suspended callback increments
    retryCount, leaves a pending reason and leaves a timer armed. *)
Definition retried_at (w : World) (i : nat) (o : Settled) : Prop :=
  retryCount w < MAX_RETRIES ->
  exists w',
    handler_settles i o w = Some w'
    /\ retryCount w' = S (retryCount w)
    /\ pendingReason w' <> None
    /\ timer w' <> None.

(** A handler that resolves to a skip at every invocation, the [n]-th one
    with reason [reasons n]. *)
Definition always_skipping (reasons : nat -> string) (n : nat) : Settled :=
  resolved (skipped (reasons n)).

(** The handlers of the test file's scenarios, by invocation number. *)
Definition quiet_then_ran (n : nat) : Settled :=
  match n with
  | 0 => resolved (skipped "quiet-hours")
  | _ => resolved (ran 1)
  end.

Definition always_disabled (n : nat) : Settled :=
  resolved (skipped "disabled").

Definition two_cycles (n : nat) : Settled :=
  match n with
  | 0 | 1 | 3 => resolved (skipped "requests-in-flight")
  | _ => resolved (ran 1)
  end.

(** The state every scenario of the test file starts from: a handler is
    registered and a wake is requested with reason [hook:wake]. *)
Definition hook_wake_requested : World :=
  requestHeartbeatNow (mkWakeOpts (Some "hook:wake") None)
    (setHeartbeatWakeHandler (Some 1) init).

(** *** Notions used for further properties of the scheduler *)

Definition not_a_reset (e : Event) : bool :=
  match e with
  | ResetHeartbeatWakeForTest => false
  | _ => true
  end.

(** The time that passes during a sequence of events. *)
Definition elapsed (es : list Event) : nat :=
  fold_right (fun e acc => match e with Elapse ms => ms + acc | _ => acc end)
    0 es.

(** The reason of the last call that gave one. *)
Definition last_explicit (calls : list WakeOpts) : option string :=
  fold_left (fun acc o => match o_reason o with Some r => Some r | None => acc end)
    calls None.

(** The re-entrancy guard and the callbacks suspended at their [await]
    agree: one callback is suspended while [running] is set, none
    otherwise. *)
Definition exclusive (w : World) : Prop :=
  (running w = true /\ exists k, suspended w = [k])
  \/ (running w = false /\ suspended w = []).

(** Nothing armed, nothing in flight, and a pending reason that is [null]
    or the empty string. *)
Definition dormant (w : World) : Prop :=
  timer w = None /\ timeouts w = [] /\ truthy (pendingReason w) = false
  /\ suspended w = [].

(** A registered handler, no timer, no run, no retries used. *)
Definition idle_with_handler (h : HeartbeatWakeHandler) (w : World) : Prop :=
  handler w = Some h /\ timer w = None /\ timeouts w = []
  /\ suspended w = [] /\ running w = false /\ scheduled w = false
  /\ retryCount w = 0.

(** The phases of a wake cycle for the reason [p], begun after the
    invocations [base] and with the warnings [ws] already logged: the timer
    is armed with [k] retries used, and the invocation of the [k]-th retry is
    in flight.  Every invocation of the cycle was given [p]. *)
Definition awaiting_timer (h : HeartbeatWakeHandler) (base : list Invocation)
    (ws : list string) (p : string) (k : nat) (w : World) : Prop :=
  (exists t x, timer w = Some t /\ timeouts w = [x] /\ tid x = t)
  /\ handler w = Some h
  /\ pendingReason w = Some p
  /\ running w = false /\ scheduled w = false
  /\ suspended w = [] /\ retryCount w = k
  /\ invocations w = base ++ repeat (mkInvocation h (Some p)) k
  /\ warnings w = ws.

Definition in_invocation (h : HeartbeatWakeHandler) (base : list Invocation)
    (ws : list string) (p : string) (k : nat) (w : World) : Prop :=
  timer w = None /\ timeouts w = []
  /\ handler w = Some h
  /\ pendingReason w = None
  /\ running w = true /\ scheduled w = false
  /\ (exists c, suspended w = [mkSuspended (Some p) c])
  /\ retryCount w = k
  /\ invocations w = base ++ repeat (mkInvocation h (Some p)) (S k)
  /\ warnings w = ws.

(** The cycle is over: the handler is idle again and nothing is pending. *)
Definition cycle_over (h : HeartbeatWakeHandler) (w : World) : Prop :=
  idle_with_handler h w /\ pendingReason w = None.

(** A pending reason that is a non-empty string, with a handler registered,
    has a timer. *)
Definition never_stranded (w : World) : Prop :=
  truthy (pendingReason w) = true -> handler w <> None -> timer w <> None.

(** The re-arm flag is set only while a timer is armed. *)
Definition flag_has_timer (w : World) : Prop :=
  scheduled w = true -> timer w <> None.

End HeartbeatWake.

(** ** The session event queue *)

Module SystemEvents.

(** Modelled from the spec: the module [src/infra/system-events.ts] is not
    among the sources, only its test file is.  Per-key capacity. *)
Definition CAPACITY : nat := 20.

(** Modelled from the spec: the overflow observation, carrying the session
    key (the test file expects one warning whose payload has [sessionKey]). *)
Inductive Observation : Type :=
| overflow (sessionKey : string).

(** Modelled from the spec: the argument-validation error of [enqueue]. *)
Inductive Error : Type :=
| InvalidArgument (message : string).

(** Modelled from the spec: a mapping from session key to an ordered
    sequence of event texts, and the observations emitted so far. *)
Record State : Type := mkState {
  queues : gmap string (list string);
  observations : list Observation
}.

Definition init : State := mkState ∅ [].

Definition is_whitespace (c : ascii) : bool :=
  match nat_of_ascii c with
  | 9 | 10 | 11 | 12 | 13 | 32 => true
  | _ => false
  end.

(** Modelled from the spec: a blank or whitespace-only session key. *)
Fixpoint blank (s : string) : bool :=
  match s with
  | EmptyString => true
  | String c s' => is_whitespace c && blank s'
  end.

Definition missing_key_message : string := "sessionKey is required".

(** [needle] occurs in [hay]. *)
Definition mentions (needle hay : string) : bool :=
  match String.index 0 needle hay with
  | Some _ => true
  | None => false
  end.

(** Modelled from the spec: [peek(sessionKey)], the current sequence of the
    key, not consumed. *)
Definition peek (sessionKey : string) (st : State) : list string :=
  default [] (queues st !! sessionKey).

(** Modelled from the spec: [enqueue(text, { sessionKey })].  Fails on a
    blank key; otherwise appends, evicting the oldest entry first and
    emitting an overflow observation when the length would exceed the
    capacity.  The queue performs no deduplication. *)
Definition enqueue (text sessionKey : string) (st : State)
    : (Error + unit) * State :=
  if blank sessionKey then
    (inl (InvalidArgument missing_key_message), st)
  else
    let q := peek sessionKey st in
    if CAPACITY <? S (length q) then
      (inr tt,
       mkState (<[sessionKey := tail q ++ [text]]> (queues st))
               (observations st ++ [overflow sessionKey]))
    else
      (inr tt,
       mkState (<[sessionKey := q ++ [text]]> (queues st)) (observations st)).

(** Modelled from the spec: [drainAndPrefix(sessionKey)] removes and
    returns all queued events of the key, in arrival order. *)
Definition drainAndPrefix (sessionKey : string) (st : State)
    : list string * State :=
  (peek sessionKey st,
   mkState (delete sessionKey (queues st)) (observations st)).

(** Enqueue a list of texts under one key, in order; stops at an error. *)
Fixpoint enqueue_all (texts : list string) (sessionKey : string) (st : State)
    : (Error + unit) * State :=
  match texts with
  | [] => (inr tt, st)
  | t :: texts' =>
      match enqueue t sessionKey st with
      | (inr _, st') => enqueue_all texts' sessionKey st'
      | (inl e, st') => (inl e, st')
      end
  end.

(** Queue operations, to state isolation over arbitrary histories. *)
Inductive Op : Type :=
| Enqueue (text sessionKey : string)
| Drain (sessionKey : string).

Definition op_key (o : Op) : string :=
  match o with
  | Enqueue _ k => k
  | Drain k => k
  end.

Definition apply_op (o : Op) (st : State) : State :=
  match o with
  | Enqueue t k => snd (enqueue t k st)
  | Drain k => snd (drainAndPrefix k st)
  end.

Definition apply_ops (ops : list Op) (st : State) : State :=
  fold_left (fun acc o => apply_op o acc) ops st.

(** The sequence a key holds after one more event. *)
Definition pushed (q : list string) (text : string) : list string :=
  if CAPACITY <? S (length q) then tail q ++ [text] else q ++ [text].

(** The 21 events of the overflow test. *)
Definition overflow_test_events : list string :=
  ["event 1"; "event 2"; "event 3"; "event 4"; "event 5"; "event 6"; "event 7";
   "event 8"; "event 9"; "event 10"; "event 11"; "event 12"; "event 13"; "event 14";
   "event 15"; "event 16"; "event 17"; "event 18"; "event 19"; "event 20"; "event 21"].

End SystemEvents.

(** ** Properties of the wake scheduler *)

Module WakeFacts.
Import HeartbeatWake.

#[local] Arguments schedule : simpl never.

(** *** Arming the timer *)

Lemma schedule_armed (c : nat) (w : World) (t : nat) :
  timer w = Some t -> schedule c w = w.
Proof. intros H. unfold schedule. now rewrite H. Qed.

Lemma schedule_idle (c : nat) (w : World) :
  timer w = None ->
  schedule c w =
  set_timer (Some (nextId w))
    (set_nextId (S (nextId w))
       (set_timeouts (timeouts w ++ [mkTimeout (nextId w) (now w + c) c]) w)).
Proof. intros H. unfold schedule. now rewrite H. Qed.

Lemma schedule_arms (c : nat) (w : World) : timer (schedule c w) <> None.
Proof.
  destruct (timer w) as [t|] eqn:E.
  - rewrite (schedule_armed c w t E). congruence.
  - rewrite (schedule_idle c w E). discriminate.
Qed.

(** [schedule] touches the timer slot only. *)
Lemma schedule_frame (c : nat) (w : World) :
  handler (schedule c w) = handler w
  /\ pendingReason (schedule c w) = pendingReason w
  /\ scheduled (schedule c w) = scheduled w
  /\ running (schedule c w) = running w
  /\ retryCount (schedule c w) = retryCount w
  /\ now (schedule c w) = now w
  /\ suspended (schedule c w) = suspended w
  /\ invocations (schedule c w) = invocations w
  /\ warnings (schedule c w) = warnings w.
Proof. unfold schedule. destruct (timer w); cbn; repeat split. Qed.

(** *** The invariant *)

Lemma inv_frame (w w' : World) :
  timer w' = timer w -> timeouts w' = timeouts w ->
  retryCount w' <= MAX_RETRIES ->
  timer_slot_ok w -> SchedulerInv w'.
Proof.
  intros Ht Hts Hr Hs. split; [|exact Hr].
  unfold timer_slot_ok in *. now rewrite Ht, Hts.
Qed.

Lemma schedule_slot (c : nat) (w : World) :
  timer_slot_ok w -> timer_slot_ok (schedule c w).
Proof.
  intros H. destruct (timer w) as [t|] eqn:E.
  - now rewrite (schedule_armed c w t E).
  - rewrite (schedule_idle c w E). unfold timer_slot_ok in *.
    rewrite E in H. cbn. rewrite H. cbn. eexists. split; reflexivity.
Qed.

Lemma schedule_inv (c : nat) (w : World) :
  SchedulerInv w -> SchedulerInv (schedule c w).
Proof.
  intros [Hs Hr]. split.
  - now apply schedule_slot.
  - destruct (schedule_frame c w) as (_ & _ & _ & _ & E & _). now rewrite E.
Qed.

(** Clearing the handle that [timer] names empties the host's table. *)
Lemma clear_own_timeout (w : World) (t : nat) :
  timer_slot_ok w -> timer w = Some t ->
  List.filter (fun x => negb (Nat.eqb (tid x) t)) (timeouts w) = [].
Proof.
  unfold timer_slot_ok. intros H E. rewrite E in H.
  destruct H as (x & -> & <-). cbn. now rewrite Nat.eqb_refl.
Qed.

(** A handle the host can fire is the one [timer] names. *)
Lemma find_own_timeout (w : World) (t : nat) (x : Timeout) :
  timer_slot_ok w ->
  List.find (fun y => Nat.eqb (tid y) t) (timeouts w) = Some x ->
  timer w = Some t /\ timeouts w = [x] /\ tid x = t.
Proof.
  unfold timer_slot_ok. intros H F. destruct (timer w) as [t'|].
  - destruct H as (y & Hy & Ht). rewrite Hy in F. cbn in F.
    destruct (Nat.eqb (tid y) t) eqn:E; [|discriminate].
    apply Nat.eqb_eq in E. inversion F; subst. auto.
  - rewrite H in F. discriminate.
Qed.

Lemma callback_start_inv (c : nat) (w : World) :
  timeouts w = [] -> retryCount w <= MAX_RETRIES ->
  SchedulerInv (callback_start c w).
Proof.
  intros Hts Hr. unfold callback_start. cbn.
  destruct (handler w) as [h|].
  - destruct (running w).
    + apply schedule_inv. split; [|exact Hr]. unfold timer_slot_ok. now cbn.
    + split; [|exact Hr]. unfold timer_slot_ok. now cbn.
  - split; [|exact Hr]. unfold timer_slot_ok. now cbn.
Qed.

Lemma retry_or_give_up_inv (r : option string) (why : string) (w : World) :
  SchedulerInv w -> SchedulerInv (retry_or_give_up r why w).
Proof.
  intros [Hs Hr]. unfold retry_or_give_up.
  destruct (MAX_RETRIES <=? retryCount w) eqn:E.
  - split; [exact Hs | cbn; lia].
  - apply Nat.leb_gt in E. apply schedule_inv.
    split; [exact Hs | cbn; lia].
Qed.

Lemma callback_finally_inv (c : nat) (w : World) :
  SchedulerInv w -> SchedulerInv (callback_finally c w).
Proof.
  intros H. unfold callback_finally.
  assert (H' : SchedulerInv (set_running false w)) by exact H.
  destruct (_ || _); [now apply schedule_inv | exact H'].
Qed.

Lemma callback_resume_inv (k : Suspended) (o : Settled) (w : World) :
  SchedulerInv w -> SchedulerInv (callback_resume k o w).
Proof.
  intros H. unfold callback_resume. apply callback_finally_inv.
  assert (H0 : SchedulerInv (set_retryCount 0 w)).
  { destruct H as [Hs _]. split; [exact Hs | cbn; lia]. }
  destruct o as [[d|r|r]|]; auto using retry_or_give_up_inv.
  destruct (negb _); auto using retry_or_give_up_inv.
Qed.

Lemma step_inv (e : Event) (w w' : World) :
  SchedulerInv w -> step e w = Some w' -> SchedulerInv w'.
Proof.
  intros Hinv Hstep. destruct e as [opts|next| |ms|t|i o]; cbn in Hstep.
  - inversion Hstep; subst. unfold requestHeartbeatNow.
    apply schedule_inv. exact Hinv.
  - inversion Hstep; subst. unfold setHeartbeatWakeHandler. cbn.
    destruct next as [h|]; [|exact Hinv].
    destruct (truthy (pendingReason w)); [|exact Hinv].
    apply schedule_inv. exact Hinv.
  - inversion Hstep; subst. destruct Hinv as [Hs Hr].
    unfold resetHeartbeatWakeForTest. cbn.
    split; [|cbn; lia]. unfold timer_slot_ok. cbn.
    destruct (timer w) as [t|] eqn:E; cbn.
    + now apply clear_own_timeout.
    + unfold timer_slot_ok in Hs. now rewrite E in Hs.
  - inversion Hstep; subst. exact Hinv.
  - unfold timer_fires in Hstep.
    destruct (List.find _ _) as [x|] eqn:F; [|discriminate].
    destruct (deadline x <=? now w); [|discriminate].
    inversion Hstep; subst. destruct Hinv as [Hs Hr].
    destruct (find_own_timeout w t x Hs F) as (Ht & _ & _).
    apply callback_start_inv; [|exact Hr].
    unfold clearTimeout. cbn. now apply clear_own_timeout.
  - unfold handler_settles in Hstep.
    destruct (suspended w !! i) as [k|]; [|discriminate].
    inversion Hstep; subst. apply callback_resume_inv. exact Hinv.
Qed.

Lemma init_inv : SchedulerInv init.
Proof. split; [reflexivity | cbn; lia]. Qed.

Lemma exec_inv (es : list Event) :
  forall w w', SchedulerInv w -> exec es w = Some w' -> SchedulerInv w'.
Proof.
  induction es as [|e es IH]; intros w w' Hinv Hex; cbn in Hex.
  - now inversion Hex; subst.
  - destruct (step e w) as [w1|] eqn:E; [|discriminate].
    eapply IH; [|exact Hex]. eapply step_inv; eauto.
Qed.

Lemma inv_at_most_one (w : World) :
  SchedulerInv w -> length (timeouts w) <= 1.
Proof.
  intros [Hs _]. unfold timer_slot_ok in Hs. destruct (timer w).
  - destruct Hs as (x & -> & _). cbn. lia.
  - rewrite Hs. cbn. lia.
Qed.

(** *** Firing the timer *)

Lemma fire_when_idle (w : World) (t : nat) (x : Timeout) (h : HeartbeatWakeHandler) :
  timer w = Some t -> timeouts w = [x] -> tid x = t ->
  deadline x <= now w -> handler w = Some h -> running w = false ->
  timer_fires t w = Some (begun h (delay x) w).
Proof.
  intros Ht Hts Hx Hd Hh Hr. unfold timer_fires. rewrite Hts. cbn.
  rewrite Hx, Nat.eqb_refl. apply Nat.leb_le in Hd. rewrite Hd.
  unfold callback_start, clearTimeout. cbn.
  rewrite Hh, Hr, Hts. cbn. rewrite Hx, Nat.eqb_refl. reflexivity.
Qed.

Lemma fire_after_wait (w : World) (t : nat) (x : Timeout) (h : HeartbeatWakeHandler) :
  timer w = Some t -> timeouts w = [x] -> tid x = t ->
  handler w = Some h -> running w = false ->
  exec [Elapse (deadline x - now w); TimerFires t] w =
  Some (begun h (delay x) (set_now (now w + (deadline x - now w)) w)).
Proof.
  intros Ht Hts Hx Hh Hr. cbn [exec step].
  rewrite (fire_when_idle _ t x h); cbn; auto. lia.
Qed.

(** Nothing can fire when no handle is outstanding. *)
Lemma no_timeout_no_fire (w : World) (t : nat) :
  timeouts w = [] -> timer_fires t w = None.
Proof. intros H. unfold timer_fires. now rewrite H. Qed.

(** *** Wake requests while the timer is armed *)

Lemma request_when_armed (o : WakeOpts) (w : World) (t : nat) :
  timer w = Some t ->
  requestHeartbeatNow o w =
  set_pendingReason
    (Some (nullish (o_reason o) (nullish (pendingReason w) "requested"))) w.
Proof. intros H. unfold requestHeartbeatNow. now apply schedule_armed with (t := t). Qed.

Lemma set_pendingReason_twice (a b : option string) (w : World) :
  set_pendingReason a (set_pendingReason b w) = set_pendingReason a w.
Proof. reflexivity. Qed.

Lemma set_pendingReason_same (w : World) :
  set_pendingReason (pendingReason w) w = w.
Proof. now destruct w. Qed.

Lemma request_all_armed (calls : list WakeOpts) :
  forall (w : World) (t : nat),
    timer w = Some t ->
    request_all calls w =
    set_pendingReason (reason_after calls (pendingReason w)) w.
Proof.
  induction calls as [|o calls IH]; intros w t Ht; cbn.
  - symmetry. apply set_pendingReason_same.
  - fold (request_all calls (requestHeartbeatNow o w)).
    fold (reason_after calls
            (Some (nullish (o_reason o) (nullish (pendingReason w) "requested")))).
    rewrite (request_when_armed o w t Ht).
    rewrite (IH _ t) by exact Ht. cbn. reflexivity.
Qed.

(** C3: requestHeartbeatNow calls made while the timer is armed arm no
    second timer and leave the armed timer's deadline alone; they change
    pendingReason and nothing else, and when the timer then fires with a
    handler registered and no run in progress, the handler is invoked exactly
    once, with the reason the calls left, after which nothing can fire. *)
Theorem C3_requests_within_window_coalesce
    (w : World) (t : nat) (x : Timeout) (h : HeartbeatWakeHandler)
    (calls : list WakeOpts) :
  timer w = Some t -> timeouts w = [x] -> tid x = t ->
  let w' := request_all calls w in
  timeouts w' = [x] /\ timer w' = Some t /\ nextId w' = nextId w
  /\ w' = set_pendingReason (reason_after calls (pendingReason w)) w
  /\ (handler w = Some h -> running w = false ->
      exists w'',
        exec [Elapse (deadline x - now w'); TimerFires t] w' = Some w''
        /\ invocations w'' =
           invocations w ++ [mkInvocation h (reason_after calls (pendingReason w))]
        /\ timer w'' = None /\ timeouts w'' = [] /\ pendingReason w'' = None
        /\ forall t', timer_fires t' w'' = None).
Proof.
  intros Ht Hts Hx w'. subst w'.
  rewrite (request_all_armed calls w t Ht). cbn.
  repeat (split; [auto; fail|]).
  intros Hh Hr. eexists. split.
  - apply (fire_after_wait
             (set_pendingReason (reason_after calls (pendingReason w)) w)
             t x h); assumption.
  - cbn. repeat split; auto.
Qed.

Lemma C3_requests_within_window_coalesce_witness :
  let w := requestHeartbeatNow (mkWakeOpts (Some "a") None)
             (setHeartbeatWakeHandler (Some 7) init) in
  let w' := request_all [mkWakeOpts None (Some 5); mkWakeOpts (Some "b") None] w in
  timeouts w' = [mkTimeout 0 250 250] /\ timer w' = Some 0 /\ nextId w' = nextId w
  /\ w' = set_pendingReason (Some "b") w
  /\ exists w'',
       exec [Elapse 250; TimerFires 0] w' = Some w''
       /\ invocations w'' = [mkInvocation 7 (Some "b")]
       /\ timer w'' = None /\ timeouts w'' = [] /\ pendingReason w'' = None
       /\ forall t', timer_fires t' w'' = None.
Proof.
  intros w w'.
  destruct (C3_requests_within_window_coalesce w 0 (mkTimeout 0 250 250) 7
              [mkWakeOpts None (Some 5); mkWakeOpts (Some "b") None]
              eq_refl eq_refl eq_refl)
    as (Hts & Ht & Hid & Hw & Hfire).
  split; [exact Hts|]. split; [exact Ht|]. split; [exact Hid|].
  split; [exact Hw|]. exact (Hfire eq_refl eq_refl).
Defined.

(** C5: the scheduler invariant (the host holds exactly the timer handle the
    module's variable names, hence at most one, and retryCount is at most
    MAX_RETRIES = 10) holds in the initial state and is preserved by every
    operation: requestHeartbeatNow, setHeartbeatWakeHandler, the test reset,
    the passing of time, a timer firing and a handler's promise settling. *)
Theorem C5_scheduler_invariant (e : Event) (w w' : World) :
  SchedulerInv w -> step e w = Some w' ->
  SchedulerInv init /\ SchedulerInv w'
  /\ length (timeouts w') <= 1 /\ retryCount w' <= MAX_RETRIES.
Proof.
  intros Hinv Hstep.
  assert (H' : SchedulerInv w') by (eapply step_inv; eauto).
  split; [apply init_inv|]. split; [exact H'|].
  split; [now apply inv_at_most_one | apply H'].
Qed.

Lemma C5_scheduler_invariant_witness :
  SchedulerInv init
  /\ SchedulerInv (requestHeartbeatNow (mkWakeOpts None None) init)
  /\ length (timeouts (requestHeartbeatNow (mkWakeOpts None None) init)) <= 1
  /\ retryCount (requestHeartbeatNow (mkWakeOpts None None) init) <= MAX_RETRIES.
Proof.
  apply (C5_scheduler_invariant (RequestHeartbeatNow (mkWakeOpts None None)) init).
  - split; [reflexivity | cbn; lia].
  - reflexivity.
Defined.

(** C10: hasPendingHeartbeatWake is true exactly when pendingReason is set,
    a timer is armed or a re-arm was flagged; the running flag is no part of
    it, so right after the timer fired and the handler was invoked (a run in
    flight, no new request, no re-arm) it answers false. *)
Theorem C10_pending_wake_ignores_running
    (w : World) (t : nat) (x : Timeout) (h : HeartbeatWakeHandler) :
  timer w = Some t -> timeouts w = [x] -> tid x = t ->
  handler w = Some h -> running w = false ->
  (forall v : World,
      hasPendingHeartbeatWake v = true <->
      (pendingReason v <> None \/ timer v <> None \/ scheduled v = true))
  /\ exists w',
       exec [Elapse (deadline x - now w); TimerFires t] w = Some w'
       /\ running w' = true
       /\ suspended w' = suspended w ++ [mkSuspended (pendingReason w) (delay x)]
       /\ hasPendingHeartbeatWake w' = false.
Proof.
  intros Ht Hts Hx Hh Hr. split.
  - intros v. unfold hasPendingHeartbeatWake.
    destruct (pendingReason v), (timer v), (scheduled v); cbn;
      split; intros H; try reflexivity; try discriminate;
      try (left; discriminate); try (right; left; discriminate);
      try (right; right; reflexivity).
    destruct H as [H|[H|H]]; congruence.
  - eexists. split; [apply fire_after_wait; eauto|].
    cbn. repeat split.
Qed.

Lemma C10_pending_wake_ignores_running_witness :
  let w := requestHeartbeatNow (mkWakeOpts None None)
             (setHeartbeatWakeHandler (Some 1) init) in
  (forall v : World,
      hasPendingHeartbeatWake v = true <->
      (pendingReason v <> None \/ timer v <> None \/ scheduled v = true))
  /\ exists w',
       exec [Elapse 250; TimerFires 0] w = Some w'
       /\ running w' = true
       /\ suspended w' = [mkSuspended (Some "requested") 250]
       /\ hasPendingHeartbeatWake w' = false.
Proof.
  exact (C10_pending_wake_ignores_running
           (requestHeartbeatNow (mkWakeOpts None None)
              (setHeartbeatWakeHandler (Some 1) init))
           0 (mkTimeout 0 250 250) 1
           eq_refl eq_refl eq_refl eq_refl eq_refl).
Defined.

(** *** The handler's promise settles *)

Lemma resume_permanent (k : Suspended) (o : Settled) (w : World) :
  transient o = false ->
  callback_resume k o w = callback_finally (s_coalesceMs k) (set_retryCount 0 w).
Proof.
  intros H. unfold callback_resume.
  destruct o as [[d|r|r]|]; cbn in H; try reflexivity; try discriminate.
  now rewrite H.
Qed.

Lemma resume_transient (k : Suspended) (o : Settled) (w : World) :
  transient o = true ->
  callback_resume k o w =
  callback_finally (s_coalesceMs k) (retry_or_give_up (s_reason k) (why o) w).
Proof.
  intros H. unfold callback_resume.
  destruct o as [[d|r|r]|]; cbn in H; try reflexivity; try discriminate.
  now rewrite H.
Qed.

Lemma retry_below_max (r : option string) (y : string) (w : World) :
  retryCount w < MAX_RETRIES ->
  retry_or_give_up r y w =
  schedule DEFAULT_RETRY_MS
    (set_pendingReason (Some (nullish r "retry"))
       (set_retryCount (S (retryCount w)) w)).
Proof.
  intros H. unfold retry_or_give_up.
  apply Nat.leb_gt in H. now rewrite H.
Qed.

Lemma retry_at_max (r : option string) (y : string) (w : World) :
  MAX_RETRIES <= retryCount w ->
  retry_or_give_up r y w =
  set_retryCount 0 (set_warnings (warnings w ++ [exhausted_message y]) w).
Proof.
  intros H. unfold retry_or_give_up.
  apply Nat.leb_le in H. now rewrite H.
Qed.

(** Once a timer is armed, the [finally] block only clears [running]. *)
Lemma finally_when_armed (c : nat) (w : World) (t : nat) :
  timer w = Some t -> callback_finally c w = set_running false w.
Proof.
  intros H. unfold callback_finally.
  destruct (_ || _); [|reflexivity].
  now apply schedule_armed with (t := t).
Qed.

Lemma finally_nothing_new (c : nat) (w : World) :
  truthy (pendingReason w) || scheduled w = false ->
  callback_finally c w = set_running false w.
Proof. intros H. unfold callback_finally. cbn. now rewrite H. Qed.

(** The retry path leaves a timer armed whatever was armed before, and an
    idle slot gets a timer at the retry delay. *)
Lemma retry_arms (c : nat) (r : option string) (y : string) (w : World) :
  retryCount w < MAX_RETRIES ->
  let w' := callback_finally c (retry_or_give_up r y w) in
  retryCount w' = S (retryCount w)
  /\ pendingReason w' = Some (nullish r "retry")
  /\ running w' = false
  /\ timer w' <> None
  /\ warnings w' = warnings w
  /\ invocations w' = invocations w
  /\ handler w' = handler w
  /\ now w' = now w
  /\ suspended w' = suspended w
  /\ (forall t, timer w = Some t -> timer w' = Some t /\ timeouts w' = timeouts w)
  /\ (timer w = None ->
      timer w' = Some (nextId w)
      /\ timeouts w' =
         timeouts w ++ [mkTimeout (nextId w) (now w + DEFAULT_RETRY_MS) DEFAULT_RETRY_MS]).
Proof.
  intros H w'. subst w'. rewrite (retry_below_max r y w H).
  destruct (timer w) as [t|] eqn:E.
  - rewrite (schedule_armed _ _ t) by exact E.
    rewrite (finally_when_armed _ _ t) by exact E.
    cbn. rewrite E. repeat split; try discriminate; try congruence.
  - rewrite schedule_idle by exact E.
    rewrite (finally_when_armed _ _ (nextId w)) by reflexivity.
    cbn. repeat split; try discriminate; try congruence.
Qed.

(** A result that is not transient ([ran], [failed], a [disabled] skip):
    the counter is reset, the pending reason is left as it is, nothing is
    logged, and the timer slot changes only through the [finally] block,
    which arms a timer at the coalescing delay for a wake that is pending or
    a re-arm that was flagged. *)
Lemma settle_permanent (w : World) (i : nat) (k : Suspended) (o : Settled) :
  suspended w !! i = Some k -> transient o = false ->
  exists w',
    handler_settles i o w = Some w'
    /\ w' = callback_finally (s_coalesceMs k)
              (set_retryCount 0 (set_suspended (delete i (suspended w)) w))
    /\ retryCount w' = 0 /\ running w' = false
    /\ pendingReason w' = pendingReason w
    /\ warnings w' = warnings w /\ invocations w' = invocations w
    /\ suspended w' = delete i (suspended w)
    /\ scheduled w' = scheduled w
    /\ (truthy (pendingReason w) || scheduled w = false ->
        timer w' = timer w /\ timeouts w' = timeouts w)
    /\ (forall t, timer w = Some t -> timer w' = Some t /\ timeouts w' = timeouts w)
    /\ (timer w = None -> truthy (pendingReason w) || scheduled w = true ->
        timer w' = Some (nextId w)
        /\ timeouts w' =
           timeouts w ++ [mkTimeout (nextId w) (now w + s_coalesceMs k) (s_coalesceMs k)]).
Proof.
  intros Hk Ho. unfold handler_settles. rewrite Hk.
  rewrite (resume_permanent k o _ Ho).
  eexists. split; [reflexivity|]. split; [reflexivity|].
  unfold callback_finally. cbn.
  destruct (truthy (pendingReason w) || scheduled w) eqn:E.
  - destruct (timer w) as [t|] eqn:Et.
    + rewrite (schedule_armed _ _ t) by exact Et. cbn. rewrite Et.
      repeat split; try discriminate; try congruence.
    + rewrite schedule_idle by exact Et. cbn.
      repeat split; try discriminate; try congruence.
  - cbn. repeat split; try discriminate; try congruence.
Qed.

Lemma settle_transient (w : World) (i : nat) (k : Suspended) (o : Settled) :
  suspended w !! i = Some k -> transient o = true ->
  retryCount w < MAX_RETRIES ->
  exists w',
    handler_settles i o w = Some w'
    /\ retryCount w' = S (retryCount w)
    /\ pendingReason w' = Some (nullish (s_reason k) "retry")
    /\ running w' = false
    /\ timer w' <> None
    /\ warnings w' = warnings w /\ invocations w' = invocations w
    /\ handler w' = handler w /\ now w' = now w
    /\ suspended w' = delete i (suspended w)
    /\ (forall t, timer w = Some t -> timer w' = Some t /\ timeouts w' = timeouts w)
    /\ (timer w = None ->
        timer w' = Some (nextId w)
        /\ timeouts w' =
           timeouts w ++ [mkTimeout (nextId w) (now w + DEFAULT_RETRY_MS) DEFAULT_RETRY_MS]).
Proof.
  intros Hk Ho Hr. unfold handler_settles. rewrite Hk.
  rewrite (resume_transient k o _ Ho).
  eexists. split; [reflexivity|].
  exact (retry_arms (s_coalesceMs k) (s_reason k) (why o)
           (set_suspended (delete i (suspended w)) w) Hr).
Qed.

(** With nothing armed, pending or in flight, only a wake request can lead
    to another invocation. *)
Lemma silent_step (e : Event) (w w' : World) :
  not_a_request e = true -> silent w -> step e w = Some w' ->
  silent w' /\ invocations w' = invocations w.
Proof.
  intros He (Ht & Hts & Hp & Hs) Hstep.
  destruct e as [opts|next| |ms|t|i o]; cbn in *; try discriminate.
  - inversion Hstep; subst. unfold setHeartbeatWakeHandler. cbn.
    rewrite Hp. cbn. destruct next; repeat split; assumption.
  - inversion Hstep; subst. unfold resetHeartbeatWakeForTest. cbn.
    rewrite Ht. cbn. repeat split; assumption.
  - inversion Hstep; subst. repeat split; assumption.
  - rewrite no_timeout_no_fire in Hstep by exact Hts. discriminate.
  - unfold handler_settles in Hstep. rewrite Hs in Hstep. discriminate.
Qed.

Lemma silent_exec (es : list Event) :
  forall w w', forallb not_a_request es = true -> silent w ->
    exec es w = Some w' -> silent w' /\ invocations w' = invocations w.
Proof.
  induction es as [|e es IH]; intros w w' Hes Hs Hex; cbn in *.
  - inversion Hex; subst. auto.
  - apply andb_true_iff in Hes. destruct Hes as [He Hes].
    destruct (step e w) as [w1|] eqn:E; [|discriminate].
    destruct (silent_step e w w1 He Hs E) as [Hs1 Hi1].
    destruct (IH w1 w' Hes Hs1 Hex) as [Hs' Hi']. split; congruence.
Qed.

(** C4: when the handler resolves to a skip whose reason is exactly the
    string disabled, then whatever retryCount is, it becomes 0, the pending
    reason is not restored, nothing is logged and no retry timer is armed
    (the timer slot changes only if a wake is pending or a re-arm was
    flagged, and then at the coalescing delay); if no wake request arrived
    during the run, nothing is armed or pending afterwards and no further
    invocation happens in any continuation without a wake request. *)
Theorem C4_disabled_skip_never_retries (w : World) (i : nat) (k : Suspended) :
  suspended w !! i = Some k ->
  exists w',
    handler_settles i (resolved (skipped "disabled")) w = Some w'
    /\ retryCount w' = 0 /\ running w' = false
    /\ pendingReason w' = pendingReason w
    /\ warnings w' = warnings w /\ invocations w' = invocations w
    /\ (truthy (pendingReason w) || scheduled w = false ->
        timer w' = timer w /\ timeouts w' = timeouts w)
    /\ (forall t, timer w = Some t -> timer w' = Some t /\ timeouts w' = timeouts w)
    /\ (timer w = None -> truthy (pendingReason w) || scheduled w = true ->
        timeouts w' =
        timeouts w ++ [mkTimeout (nextId w) (now w + s_coalesceMs k) (s_coalesceMs k)])
    /\ (suspended w = [k] -> timer w = None -> timeouts w = [] ->
        pendingReason w = None -> scheduled w = false ->
        hasPendingHeartbeatWake w' = false
        /\ forall es w'',
             forallb not_a_request es = true -> exec es w' = Some w'' ->
             invocations w'' = invocations w).
Proof.
  intros Hk.
  destruct (settle_permanent w i k (resolved (skipped "disabled")) Hk eq_refl)
    as (w' & Hs & _ & Hrc & Hrun & Hp & Hw & Hi & Hsus & Hsc & Hquiet & Harmed & Hnew).
  exists w'. repeat (split; [assumption|]).
  split; [intros Ht Hc; now apply Hnew|].
  intros Hone Ht Hts Hpn Hsch.
  assert (Hq : truthy (pendingReason w) || scheduled w = false)
    by (rewrite Hpn, Hsch; reflexivity).
  destruct (Hquiet Hq) as [Ht' Hts']. split.
  - unfold hasPendingHeartbeatWake. now rewrite Hp, Hpn, Ht', Ht, Hsc, Hsch.
  - intros es w'' Hes Hex.
    assert (Hsil : silent w').
    { repeat split; try congruence.
      rewrite Hsus, Hone. rewrite Hone in Hk.
      destruct i as [|i]; [reflexivity | discriminate]. }
    destruct (silent_exec es w' w'' Hes Hsil Hex) as [_ Hinv]. congruence.
Qed.

Lemma C4_disabled_skip_never_retries_witness :
  suspended in_flight_world !! 0 = Some (mkSuspended (Some "hook:wake") 250)
  /\ exists w',
       handler_settles 0 (resolved (skipped "disabled")) in_flight_world = Some w'
       /\ retryCount w' = 0 /\ timer w' = None /\ timeouts w' = []
       /\ hasPendingHeartbeatWake w' = false.
Proof.
  split; [reflexivity|].
  destruct (C4_disabled_skip_never_retries in_flight_world 0
              (mkSuspended (Some "hook:wake") 250) eq_refl)
    as (w' & Hs & Hrc & _ & _ & _ & _ & Hq & _ & _ & Hsil).
  exists w'. split; [exact Hs|]. split; [exact Hrc|].
  destruct (Hq eq_refl) as [Ht Hts].
  split; [exact Ht|]. split; [exact Hts|].
  exact (proj1 (Hsil eq_refl eq_refl eq_refl eq_refl eq_refl)).
Defined.

(** C9: a wake requested with a fresh reason r2 while an invocation that
    captured r1 is in flight is lost when that invocation ends as a transient
    skip or a rejection with retryCount below the maximum: the retry path
    overwrites pendingReason with r1 (or with the marker retry when r1 is
    absent), and the next invocation is given that reason, not r2. *)
Theorem C9_request_during_run_is_overwritten
    (w : World) (i : nat) (r1 : option string) (c : nat)
    (r2 : string) (cm : option nat) (o : Settled) :
  SchedulerInv w ->
  suspended w !! i = Some (mkSuspended r1 c) ->
  retryCount w < MAX_RETRIES -> transient o = true ->
  let w1 := requestHeartbeatNow (mkWakeOpts (Some r2) cm) w in
  pendingReason w1 = Some r2
  /\ exists w2 t x,
       handler_settles i o w1 = Some w2
       /\ pendingReason w2 = Some (nullish r1 "retry")
       /\ retryCount w2 = S (retryCount w)
       /\ timer w2 = Some t /\ timeouts w2 = [x] /\ tid x = t
       /\ forall h, handler w2 = Some h ->
            exists w3,
              exec [Elapse (deadline x - now w2); TimerFires t] w2 = Some w3
              /\ invocations w3 =
                 invocations w2 ++ [mkInvocation h (Some (nullish r1 "retry"))].
Proof.
  intros Hinv Hk Hr Ho w1.
  assert (Hinv1 : SchedulerInv w1).
  { apply (step_inv (RequestHeartbeatNow (mkWakeOpts (Some r2) cm)) w); auto. }
  assert (Hframe := schedule_frame (default DEFAULT_COALESCE_MS cm)
                      (set_pendingReason (Some r2) w)).
  assert (Hw1 : w1 = schedule (default DEFAULT_COALESCE_MS cm)
                       (set_pendingReason (Some r2) w)) by reflexivity.
  rewrite <- Hw1 in Hframe. cbn in Hframe.
  destruct Hframe as (Hh & Hp & Hsc & Hrun & Hrc & Hnow & Hsus & Hi & Hwarn).
  split; [exact Hp|].
  destruct (timer w1) as [t|] eqn:Et.
  2:{ exfalso. rewrite Hw1 in Et. now apply schedule_arms in Et. }
  destruct Hinv1 as [Hslot _]. unfold timer_slot_ok in Hslot. rewrite Et in Hslot.
  destruct Hslot as (x & Hts & Hx).
  rewrite <- Hsus in Hk. rewrite <- Hrc in Hr.
  destruct (settle_transient w1 i (mkSuspended r1 c) o Hk Ho Hr)
    as (w2 & Hs & Hrc2 & Hp2 & Hrun2 & _ & _ & Hi2 & Hh2 & Hnow2 & _ & Harmed & _).
  destruct (Harmed t Et) as [Ht2 Hts2].
  exists w2, t, x. split; [exact Hs|]. split; [exact Hp2|].
  split; [congruence|]. split; [exact Ht2|]. split; [congruence|].
  split; [exact Hx|].
  intros h Hh'. eexists. split.
  - apply (fire_after_wait w2 t x h); congruence.
  - cbn. now rewrite Hp2.
Qed.

Lemma C9_request_during_run_is_overwritten_witness :
  let w1 := requestHeartbeatNow (mkWakeOpts (Some "manual") None) in_flight_world in
  pendingReason w1 = Some "manual"
  /\ exists w2 t x,
       handler_settles 0 (resolved (skipped "quiet-hours")) w1 = Some w2
       /\ pendingReason w2 = Some "hook:wake"
       /\ retryCount w2 = 1
       /\ timer w2 = Some t /\ timeouts w2 = [x] /\ tid x = t
       /\ forall h, handler w2 = Some h ->
            exists w3,
              exec [Elapse (deadline x - now w2); TimerFires t] w2 = Some w3
              /\ invocations w3 =
                 invocations w2 ++ [mkInvocation h (Some "hook:wake")].
Proof.
  apply (C9_request_during_run_is_overwritten in_flight_world 0
           (Some "hook:wake") 250 "manual" None
           (resolved (skipped "quiet-hours"))).
  - split; [reflexivity | vm_compute; lia].
  - reflexivity.
  - vm_compute; lia.
  - reflexivity.
Defined.

(** C1, as stated, fails: in the first scenario of the test file, a handler
    that resolves to a failed result is not retried (retryCount stays 0,
    nothing is pending, no timer is armed), while the same completion with a
    skipped result of the same reason is. *)
Lemma C1_failed_result_retried_counterexample :
  ~ retried_at in_flight_world 0 (resolved (failed "boom"))
  /\ retried_at in_flight_world 0 (resolved (skipped "boom"))
  /\ handler_settles 0 (resolved (failed "boom")) in_flight_world =
     Some (set_running false (set_suspended [] in_flight_world)).
Proof.
  split; [|split].
  - intros H. destruct H as (w' & Hs & Hrc & _); [vm_compute; lia|].
    vm_compute in Hs. inversion Hs; subst. vm_compute in Hrc. discriminate.
  - intros _. eexists. split; [vm_compute; reflexivity|].
    vm_compute. repeat split; discriminate.
  - vm_compute. reflexivity.
Qed.

(** C1, amended: a failed result is not transient.  It is handled exactly as
    a ran result and as a disabled skip: retryCount becomes 0, pendingReason
    is not restored, nothing is logged and no retry timer is armed.  The
    retry path (retryCount below the maximum: increment retryCount, restore
    pendingReason, leave a timer armed, at the retry delay if none was) is
    taken by a non-disabled skip and by a rejected promise only. *)
Theorem C1_failed_result_resets_without_retry
    (w : World) (i : nat) (k : Suspended) (r : string) :
  suspended w !! i = Some k ->
  (forall d, handler_settles i (resolved (failed r)) w =
             handler_settles i (resolved (ran d)) w)
  /\ handler_settles i (resolved (failed r)) w =
     handler_settles i (resolved (skipped "disabled")) w
  /\ (exists w',
        handler_settles i (resolved (failed r)) w = Some w'
        /\ retryCount w' = 0
        /\ pendingReason w' = pendingReason w
        /\ warnings w' = warnings w
        /\ (truthy (pendingReason w) || scheduled w = false ->
            timer w' = timer w /\ timeouts w' = timeouts w)
        /\ (forall t, timer w = Some t -> timer w' = Some t /\ timeouts w' = timeouts w))
  /\ (forall o, transient o = true -> retryCount w < MAX_RETRIES ->
        exists w',
          handler_settles i o w = Some w'
          /\ retryCount w' = S (retryCount w)
          /\ pendingReason w' = Some (nullish (s_reason k) "retry")
          /\ timer w' <> None
          /\ (timer w = None ->
              timeouts w' =
              timeouts w ++
                [mkTimeout (nextId w) (now w + DEFAULT_RETRY_MS) DEFAULT_RETRY_MS])).
Proof.
  intros Hk. split; [|split; [|split]].
  - intros d. unfold handler_settles. now rewrite Hk.
  - unfold handler_settles. now rewrite Hk.
  - destruct (settle_permanent w i k (resolved (failed r)) Hk eq_refl)
      as (w' & Hs & _ & Hrc & _ & Hp & Hw & _ & _ & _ & Hquiet & Harmed & _).
    exists w'. repeat (split; [assumption|]). exact Harmed.
  - intros o Ho Hr.
    destruct (settle_transient w i k o Hk Ho Hr)
      as (w' & Hs & Hrc & Hp & _ & Ht & _ & _ & _ & _ & _ & _ & Hnew).
    exists w'. repeat (split; [assumption|]).
    intros Hnone. now apply Hnew.
Qed.

Lemma C1_failed_result_resets_without_retry_witness :
  suspended in_flight_world !! 0 = Some (mkSuspended (Some "hook:wake") 250)
  /\ (exists w',
        handler_settles 0 (resolved (failed "boom")) in_flight_world = Some w'
        /\ retryCount w' = 0 /\ pendingReason w' = None /\ timer w' = None)
  /\ (exists w',
        handler_settles 0 rejected in_flight_world = Some w'
        /\ retryCount w' = 1 /\ pendingReason w' = Some "hook:wake"
        /\ timeouts w' = [mkTimeout 1 1300 1000]).
Proof.
  split; [reflexivity|].
  destruct (C1_failed_result_resets_without_retry in_flight_world 0
              (mkSuspended (Some "hook:wake") 250) "boom" eq_refl)
    as (_ & _ & (wf & Hf & Hrc & Hp & _ & Hq & _) & Hretry).
  split.
  - exists wf. split; [exact Hf|]. split; [exact Hrc|]. split; [exact Hp|].
    exact (proj1 (Hq eq_refl)).
  - assert (Hlt : retryCount in_flight_world < MAX_RETRIES) by (vm_compute; lia).
    destruct (Hretry rejected eq_refl Hlt) as (wr & Hs & Hrc' & Hp' & _ & Hts).
    exists wr. split; [exact Hs|]. split; [exact Hrc'|]. split; [exact Hp'|].
    exact (Hts eq_refl).
Defined.

(** *** A run of retries *)

Lemma skip_only_settle (i : nat) (o : Settled) :
  skip_only (HandlerSettles i o) = true ->
  exists r, o = resolved (skipped r) /\ String.eqb r "disabled" = false.
Proof.
  destruct o as [[d|r|r]|]; cbn; try discriminate.
  intros H. exists r. split; [reflexivity|]. now apply negb_true_iff.
Qed.

Lemma waiting_step (e : Event) (k : nat) (w w' : World) :
  skip_only e = true -> waiting k w -> step e w = Some w' ->
  waiting k w' \/ invoking k w'.
Proof.
  intros He Hw Hstep.
  destruct Hw as ((t & x & Ht & Hts & Hx) & (h & Hh) & (p & Hp) & Hrun & Hsc
                  & Hsus & Hrc & Hlen & Hwarn).
  destruct w as [h0 p0 sc ru ti rc nw ts ni su iv wa]. cbn in *. subst.
  destruct e as [opts|next| |ms|t'|i o]; cbn in *; try discriminate.
  - inversion Hstep; subst. left. cbn.
    unfold waiting. cbn. repeat split; eauto.
  - unfold timer_fires in Hstep. cbn in Hstep.
    destruct (Nat.eqb (tid x) t') eqn:E; [|discriminate].
    destruct (deadline x <=? nw); [|discriminate].
    inversion Hstep; subst. right.
    unfold callback_start, clearTimeout. cbn. rewrite E. cbn.
    unfold invoking. cbn. repeat split; eauto.
    rewrite length_app. cbn. lia.
Qed.

Lemma invoking_settle (k : nat) (r : string) (w : World) :
  invoking k w -> String.eqb r "disabled" = false ->
  exists w',
    handler_settles 0 (resolved (skipped r)) w = Some w'
    /\ (k < MAX_RETRIES -> waiting (S k) w')
    /\ (k = MAX_RETRIES ->
        given_up w' /\ warnings w' = [exhausted_message r]).
Proof.
  intros Hw Hr.
  destruct Hw as (Ht & Hts & (h & Hh) & Hp & Hrun & Hsc & (r0 & c & Hsus)
                  & Hrc & Hlen & Hwarn).
  destruct w as [h0 p0 sc ru ti rc nw ts ni su iv wa]. cbn in *. subst.
  unfold handler_settles. cbn. eexists. split; [reflexivity|].
  unfold callback_resume. rewrite Hr. cbn [negb s_reason s_coalesceMs].
  split.
  - intros Hk. rewrite retry_below_max by exact Hk.
    unfold schedule, callback_finally. cbn.
    destruct (_ || _); unfold schedule, waiting; cbn; repeat split; eauto.
  - intros Hk. rewrite retry_at_max by (cbn; lia).
    unfold callback_finally, given_up. cbn. repeat split; eauto.
    now rewrite Hlen, Hk.
Qed.

Lemma invoking_step (e : Event) (k : nat) (w w' : World) :
  skip_only e = true -> k <= MAX_RETRIES -> invoking k w ->
  step e w = Some w' -> retry_phase w'.
Proof.
  intros He Hk Hw Hstep.
  destruct e as [opts|next| |ms|t'|i o]; try discriminate.
  - cbn in Hstep. inversion Hstep; subst. right. left. exists k.
    split; [exact Hk|]. exact Hw.
  - cbn in Hstep. destruct Hw as (_ & Hts & _).
    rewrite no_timeout_no_fire in Hstep by exact Hts. discriminate.
  - destruct (skip_only_settle i o He) as (r & -> & Hr).
    destruct (invoking_settle k r w Hw Hr) as (w2 & Hs & Hlt & Heq).
    assert (Hi : i = 0).
    { destruct Hw as (_ & _ & _ & _ & _ & _ & (r0 & c & Hsus) & _).
      cbn in Hstep. unfold handler_settles in Hstep. rewrite Hsus in Hstep.
      destruct i as [|i]; [reflexivity | discriminate]. }
    subst i. cbn in Hstep. rewrite Hs in Hstep. inversion Hstep; subst w2.
    destruct (Nat.eq_dec k MAX_RETRIES) as [E|E].
    + right. right. now apply Heq.
    + left. exists (S k). split; [lia|]. apply Hlt. lia.
Qed.

Lemma given_up_step (e : Event) (w w' : World) :
  skip_only e = true -> given_up w -> step e w = Some w' -> given_up w'.
Proof.
  intros He Hw Hstep.
  destruct e as [opts|next| |ms|t'|i o]; try discriminate.
  - cbn in Hstep. inversion Hstep; subst. exact Hw.
  - cbn in Hstep. destruct Hw as (_ & Hts & _).
    rewrite no_timeout_no_fire in Hstep by exact Hts. discriminate.
  - destruct Hw as (_ & _ & _ & _ & _ & Hsus & _).
    cbn in Hstep. unfold handler_settles in Hstep. rewrite Hsus in Hstep.
    discriminate.
Qed.

Lemma retry_phase_step (e : Event) (w w' : World) :
  skip_only e = true -> retry_phase w -> step e w = Some w' -> retry_phase w'.
Proof.
  intros He [(k & Hk & Hw)|[(k & Hk & Hw)|Hw]] Hstep.
  - destruct (waiting_step e k w w' He Hw Hstep) as [H|H].
    + left. eauto.
    + right. left. eauto.
  - eapply invoking_step; eauto.
  - right. right. eapply given_up_step; eauto.
Qed.

Lemma retry_phase_exec (es : list Event) :
  forall w w', forallb skip_only es = true -> retry_phase w ->
    exec es w = Some w' -> retry_phase w'.
Proof.
  induction es as [|e es IH]; intros w w' Hes Hw Hex; cbn in *.
  - now inversion Hex; subst.
  - apply andb_true_iff in Hes. destruct Hes as [He Hes].
    destruct (step e w) as [w1|] eqn:E; [|discriminate].
    apply (IH w1 w' Hes); [|exact Hex].
    exact (retry_phase_step e w w1 He Hw E).
Qed.

(** What the three phases say about the observable quantities. *)
Lemma retry_phase_bound (w : World) :
  retry_phase w ->
  length (invocations w) <= S MAX_RETRIES
  /\ (quiescent w -> given_up w).
Proof.
  intros [(k & Hk & Hw)|[(k & Hk & Hw)|Hw]].
  - destruct Hw as ((t & x & _ & Hts & _) & _ & _ & _ & _ & _ & _ & Hlen & _).
    split; [lia|]. intros [Hq _]. congruence.
  - destruct Hw as (_ & _ & _ & _ & _ & _ & (r & c & Hsus) & _ & Hlen & _).
    split; [lia|]. intros [_ Hq]. congruence.
  - split; [|auto]. destruct Hw as (_ & _ & _ & _ & _ & _ & _ & Hlen & _). lia.
Qed.

Lemma first_request_waits (h : HeartbeatWakeHandler) (opts : WakeOpts) :
  waiting 0 (requestHeartbeatNow opts (setHeartbeatWakeHandler (Some h) init)).
Proof.
  unfold requestHeartbeatNow, setHeartbeatWakeHandler, schedule, waiting. cbn.
  repeat split; eauto.
Qed.

(** *** The driver *)

Lemma drive_add (answer : nat -> Settled) (a b : nat) :
  forall w, drive answer (a + b) w = drive answer b (drive answer a w).
Proof.
  induction a as [|a IH]; intros w; [reflexivity|].
  cbn [Nat.add drive].
  destruct (suspended w) as [|s ss] eqn:Es.
  - destruct (timeouts w) as [|x xs] eqn:Et.
    + destruct b; cbn; now rewrite ?Es, ?Et.
    + destruct (timer_fires _ _) as [w1|] eqn:Ef; [apply IH|].
      destruct b; cbn; now rewrite ?Es, ?Et, ?Ef.
  - destruct (handler_settles _ _ _) as [w1|] eqn:Eh; [apply IH|].
    destruct b; cbn; now rewrite ?Es, ?Eh.
Qed.

Lemma drive_given_up (answer : nat -> Settled) (fuel : nat) (w : World) :
  given_up w -> drive answer fuel w = w.
Proof.
  intros (_ & Hts & _ & _ & _ & Hsus & _).
  destruct fuel; cbn; now rewrite ?Hsus, ?Hts.
Qed.

Lemma drive_waiting (answer : nat -> Settled) (fuel k : nat) (w : World) :
  waiting k w ->
  exists w', invoking k w' /\ drive answer (S fuel) w = drive answer fuel w'.
Proof.
  intros Hw.
  destruct Hw as ((t & x & Ht & Hts & Hx) & (h & Hh) & (p & Hp) & Hrun & Hsc
                  & Hsus & Hrc & Hlen & Hwarn).
  exists (begun h (delay x) (set_now (Nat.max (now w) (deadline x)) w)).
  split.
  - unfold invoking. cbn. rewrite Hp, Hsus, Hwarn.
    repeat split; eauto. rewrite length_app. cbn. lia.
  - cbn [drive]. rewrite Hsus, Hts. subst t.
    rewrite (fire_when_idle _ (tid x) x h); cbn; auto. lia.
Qed.

Section SkippingHandler.

Variable reasons : nat -> string.
Hypothesis not_disabled : forall n, reasons n <> "disabled".

Local Abbreviation answer := (always_skipping reasons).

Lemma reasons_eqb (n : nat) : String.eqb (reasons n) "disabled" = false.
Proof. apply String.eqb_neq. apply not_disabled. Qed.

Lemma drive_invoking (fuel k : nat) (w : World) :
  invoking k w ->
  exists w',
    handler_settles 0 (answer k) w = Some w'
    /\ drive answer (S fuel) w = drive answer fuel w'.
Proof.
  intros Hw.
  destruct (invoking_settle k (reasons k) w Hw (reasons_eqb k)) as (w' & Hs & _).
  change (handler_settles 0 (answer k) w = Some w') in Hs.
  exists w'. split; [exact Hs|].
  destruct Hw as (_ & _ & _ & _ & _ & _ & (r & c & Hsus) & _ & Hlen & _).
  cbn [drive]. rewrite Hsus, Hlen.
  replace (S k - 1) with k by lia. now rewrite Hs.
Qed.

Lemma drive_reaches_last (n : nat) :
  forall k w, k + n = MAX_RETRIES -> waiting k w ->
    invoking MAX_RETRIES (drive answer (2 * n + 1) w).
Proof.
  induction n as [|n IH]; intros k w Hk Hw.
  - destruct (drive_waiting answer 0 k w Hw) as (w1 & Hi & Hd).
    change (2 * 0 + 1) with 1. rewrite Hd.
    cbn [drive]. replace MAX_RETRIES with k by lia. exact Hi.
  - replace (2 * S n + 1) with (S (S (2 * n + 1))) by lia.
    destruct (drive_waiting answer (S (2 * n + 1)) k w Hw) as (w1 & Hi & Hd).
    rewrite Hd.
    destruct (drive_invoking (2 * n + 1) k w1 Hi) as (w2 & Hs & Hd2).
    rewrite Hd2.
    destruct (invoking_settle k (reasons k) w1 Hi (reasons_eqb k))
      as (w2' & Hs' & Hlt & _).
    unfold answer in Hs. rewrite Hs in Hs'. inversion Hs'; subst w2'.
    apply (IH (S k)); [lia|]. apply Hlt. lia.
Qed.

Lemma drive_gives_up (w : World) (fuel : nat) :
  waiting 0 w -> 2 * MAX_RETRIES + 2 <= fuel ->
  given_up (drive answer fuel w)
  /\ warnings (drive answer fuel w) = [exhausted_message (reasons MAX_RETRIES)].
Proof.
  intros Hw Hfuel.
  replace fuel with ((2 * MAX_RETRIES + 1) + (1 + (fuel - (2 * MAX_RETRIES + 2))))
    by lia.
  rewrite drive_add.
  assert (Hlast := drive_reaches_last MAX_RETRIES 0 w eq_refl Hw).
  set (wl := drive answer (2 * MAX_RETRIES + 1) w) in *.
  destruct (drive_invoking (fuel - (2 * MAX_RETRIES + 2)) MAX_RETRIES wl Hlast)
    as (wf & Hs & Hd).
  destruct (invoking_settle MAX_RETRIES (reasons MAX_RETRIES) wl Hlast
              (reasons_eqb MAX_RETRIES)) as (wf' & Hs' & _ & Hend).
  unfold answer in Hs. rewrite Hs in Hs'. inversion Hs'; subst wf'.
  destruct (Hend eq_refl) as [Hg Hwarn].
  change (1 + (fuel - (2 * MAX_RETRIES + 2))) with (S (fuel - (2 * MAX_RETRIES + 2))).
  rewrite Hd, (drive_given_up answer _ wf Hg). auto.
Qed.

End SkippingHandler.

(** C2: with a handler that resolves to a skip with a non-disabled reason at
    every invocation, one requestHeartbeatNow leads to exactly 11 invocations.
    In every execution made of time passing, timers firing and the handler
    resolving, at most 11 invocations occur, and whenever nothing is left to
    fire or to resume there were exactly 11, one warning was logged,
    retryCount is 0 and no timer is armed.  The driven run gets there: after
    21 steps the 11th invocation is in flight with retryCount at 10 and no
    warning yet; its completion logs the warning naming that invocation's
    reason, resets retryCount to 0 and arms nothing, and the run stays there
    for any further fuel. *)
Theorem C2_transient_skips_stop_after_eleven
    (h : HeartbeatWakeHandler) (opts : WakeOpts) (reasons : nat -> string) :
  (forall n, reasons n <> "disabled") ->
  let w0 := requestHeartbeatNow opts (setHeartbeatWakeHandler (Some h) init) in
  let answer := always_skipping reasons in
  (forall es w,
      forallb skip_only es = true -> exec es w0 = Some w ->
      length (invocations w) <= 11
      /\ (quiescent w ->
          length (invocations w) = 11 /\ retryCount w = 0 /\ timer w = None
          /\ exists r, warnings w = [exhausted_message r]))
  /\ (let wl := drive answer 21 w0 in
      length (invocations wl) = 11 /\ retryCount wl = 10
      /\ running wl = true /\ warnings wl = []
      /\ handler_settles 0 (answer 10) wl = Some (drive answer 22 w0))
  /\ (forall fuel, 22 <= fuel ->
      let wf := drive answer fuel w0 in
      length (invocations wf) = 11 /\ retryCount wf = 0
      /\ timer wf = None /\ quiescent wf /\ pendingReason wf = None
      /\ warnings wf = [exhausted_message (reasons 10)]).
Proof.
  intros Hnd w0 answer. subst answer.
  assert (Hw0 : waiting 0 w0) by apply first_request_waits.
  split; [|split].
  - intros es w Hes Hex.
    assert (Hph : retry_phase w).
    { apply (retry_phase_exec es w0 w Hes); [|exact Hex].
      left. exists 0. split; [unfold MAX_RETRIES; lia | exact Hw0]. }
    destruct (retry_phase_bound w Hph) as [Hle Hq].
    split; [exact Hle|]. intros Hquiet.
    destruct (Hq Hquiet) as (Ht & _ & _ & _ & _ & _ & Hrc & Hlen & Hwarn).
    auto.
  - assert (Hlast := drive_reaches_last reasons Hnd MAX_RETRIES 0 w0 eq_refl Hw0).
    change (2 * MAX_RETRIES + 1) with 21 in Hlast.
    destruct (drive_invoking reasons Hnd 0 MAX_RETRIES _ Hlast) as (wf & Hs & Hd).
    destruct Hlast as (_ & _ & _ & _ & Hrun & _ & _ & Hrc & Hlen & Hwarn).
    repeat (split; [assumption|]).
    change 22 with (21 + 1). rewrite drive_add.
    rewrite Hd. exact Hs.
  - intros fuel Hfuel wf.
    destruct (drive_gives_up reasons Hnd w0 fuel Hw0 Hfuel) as [Hg Hwarn].
    fold wf in Hg, Hwarn.
    destruct Hg as (Ht & Hts & Hp & _ & _ & Hsus & Hrc & Hlen & _).
    unfold quiescent. auto 10.
Qed.

Lemma C2_transient_skips_stop_after_eleven_witness :
  let w0 := requestHeartbeatNow (mkWakeOpts (Some "hook:wake") None)
              (setHeartbeatWakeHandler (Some 1) init) in
  let answer := always_skipping (fun _ => "requests-in-flight") in
  (forall n : nat, "requests-in-flight" <> "disabled")
  /\ length (invocations (drive answer 21 w0)) = 11
  /\ retryCount (drive answer 21 w0) = 10
  /\ length (invocations (drive answer 40 w0)) = 11
  /\ retryCount (drive answer 40 w0) = 0
  /\ timer (drive answer 40 w0) = None
  /\ warnings (drive answer 40 w0) = [exhausted_message "requests-in-flight"].
Proof.
  intros w0 answer.
  assert (Hnd : forall n : nat, "requests-in-flight" <> "disabled")
    by (intros n; discriminate).
  split; [exact Hnd|].
  destruct (C2_transient_skips_stop_after_eleven 1
              (mkWakeOpts (Some "hook:wake") None)
              (fun _ => "requests-in-flight") Hnd)
    as (_ & (Hlen & Hrc & _) & Hfinal).
  split; [exact Hlen|]. split; [exact Hrc|].
  assert (Hle : 22 <= 40) by lia.
  destruct (Hfinal 40 Hle) as (Hlen' & Hrc' & Ht & _ & _ & Hwarn).
  auto.
Defined.

(** *** The scenarios of the test file, run on the model *)

Example retries_on_quiet_hours_skip :
  map i_reason (invocations (drive quiet_then_ran 50 hook_wake_requested)) =
  [Some "hook:wake"; Some "hook:wake"]
  /\ map deadline (timeouts (drive quiet_then_ran 2 hook_wake_requested)) = [1250].
Proof. split; reflexivity. Qed.

Example does_not_retry_on_disabled_skip :
  length (invocations (drive always_disabled 50 hook_wake_requested)) = 1.
Proof. reflexivity. Qed.

Example stops_after_max_retries :
  length (invocations
            (drive (always_skipping (fun _ => "requests-in-flight")) 50
               hook_wake_requested)) = 11.
Proof. reflexivity. Qed.

Example resets_retry_counter_on_success :
  let w3 := drive two_cycles 50 hook_wake_requested in
  let w5 := drive two_cycles 50
              (requestHeartbeatNow (mkWakeOpts (Some "hook:wake") None) w3) in
  length (invocations w3) = 3 /\ retryCount w3 = 0
  /\ length (invocations w5) = 5 /\ retryCount w5 = 0.
Proof. repeat split; reflexivity. Qed.

End WakeFacts.

(** ** Properties of the session event queue *)

Module QueueFacts.
Import SystemEvents.

Lemma peek_insert_same (k : string) (q : list string)
    (m : gmap string (list string)) (obs : list Observation) :
  peek k (mkState (<[k := q]> m) obs) = q.
Proof. unfold peek. cbn. now rewrite lookup_insert_eq. Qed.

Lemma peek_insert_other (k k2 : string) (q : list string)
    (m : gmap string (list string)) (obs obs' : list Observation) :
  k2 <> k -> peek k2 (mkState (<[k := q]> m) obs) = peek k2 (mkState m obs').
Proof. intros H. unfold peek. cbn. now rewrite lookup_insert_ne. Qed.

Lemma peek_observations (k : string) (m : gmap string (list string))
    (obs obs' : list Observation) :
  peek k (mkState m obs) = peek k (mkState m obs').
Proof. reflexivity. Qed.

Lemma enqueue_accepts (text k : string) (st : State) :
  blank k = false ->
  exists st',
    enqueue text k st = (inr tt, st')
    /\ peek k st' = pushed (peek k st) text
    /\ observations st' =
       (if CAPACITY <? S (length (peek k st))
        then observations st ++ [overflow k] else observations st)
    /\ forall k2, k2 <> k -> peek k2 st' = peek k2 st.
Proof.
  intros Hb. unfold enqueue, pushed. rewrite Hb.
  destruct (CAPACITY <? S (length (peek k st))); eexists;
    (split; [reflexivity|]); (split; [apply peek_insert_same|]);
    (split; [reflexivity|]); intros k2 Hne; destruct st as [m obs];
    now apply peek_insert_other.
Qed.

Lemma enqueue_rejects (text k : string) (st : State) :
  blank k = true ->
  enqueue text k st = (inl (InvalidArgument missing_key_message), st).
Proof. intros Hb. unfold enqueue. now rewrite Hb. Qed.

(** Under another key nothing changes, whether the enqueue succeeds or not. *)
Lemma enqueue_other (text k k2 : string) (st : State) :
  k2 <> k -> peek k2 (snd (enqueue text k st)) = peek k2 st.
Proof.
  intros Hne. destruct (blank k) eqn:Hb.
  - now rewrite enqueue_rejects.
  - destruct (enqueue_accepts text k st Hb) as (st' & -> & _ & _ & Hother).
    now apply Hother.
Qed.

Lemma enqueue_same (text k : string) (st1 st2 : State) :
  peek k st1 = peek k st2 ->
  peek k (snd (enqueue text k st1)) = peek k (snd (enqueue text k st2)).
Proof.
  intros H. destruct (blank k) eqn:Hb.
  - now rewrite !enqueue_rejects.
  - destruct (enqueue_accepts text k st1 Hb) as (st1' & -> & H1 & _).
    destruct (enqueue_accepts text k st2 Hb) as (st2' & -> & H2 & _).
    cbn. now rewrite H1, H2, H.
Qed.

Lemma drain_same (k : string) (st : State) :
  fst (drainAndPrefix k st) = peek k st
  /\ peek k (snd (drainAndPrefix k st)) = [].
Proof.
  split; [reflexivity|]. unfold drainAndPrefix, peek. cbn.
  now rewrite lookup_delete_eq.
Qed.

Lemma drain_other (k k2 : string) (st : State) :
  k2 <> k -> peek k2 (snd (drainAndPrefix k st)) = peek k2 st.
Proof.
  intros Hne. unfold drainAndPrefix, peek. cbn. now rewrite lookup_delete_ne.
Qed.

Lemma apply_op_other (o : Op) (k2 : string) (st : State) :
  op_key o <> k2 -> peek k2 (apply_op o st) = peek k2 st.
Proof.
  intros Hne. destruct o as [t k|k]; cbn in *.
  - apply enqueue_other. congruence.
  - apply drain_other. congruence.
Qed.

Lemma apply_op_same (o : Op) (st1 st2 : State) :
  peek (op_key o) st1 = peek (op_key o) st2 ->
  peek (op_key o) (apply_op o st1) = peek (op_key o) (apply_op o st2).
Proof.
  intros H. destruct o as [t k|k].
  - cbn in *. now apply enqueue_same.
  - change (peek k (snd (drainAndPrefix k st1)) =
            peek k (snd (drainAndPrefix k st2))).
    rewrite (proj2 (drain_same k st1)), (proj2 (drain_same k st2)).
    reflexivity.
Qed.

(** What a key holds depends only on the operations made under that key. *)
Lemma apply_ops_isolated (k2 : string) (ops : list Op) :
  forall st1 st2,
    peek k2 st1 = peek k2 st2 ->
    peek k2 (apply_ops ops st1) =
    peek k2 (apply_ops (List.filter (fun o => String.eqb (op_key o) k2) ops) st2).
Proof.
  induction ops as [|o ops IH]; intros st1 st2 H; cbn; [exact H|].
  destruct (String.eqb (op_key o) k2) eqn:E.
  - apply String.eqb_eq in E. cbn. apply IH. subst k2. now apply apply_op_same.
  - apply String.eqb_neq in E. apply IH.
    rewrite apply_op_other by exact E. exact H.
Qed.

Lemma enqueue_all_app (a b : list string) (k : string) :
  forall st st',
    enqueue_all a k st = (inr tt, st') ->
    enqueue_all (a ++ b) k st = enqueue_all b k st'.
Proof.
  induction a as [|t a IH]; intros st st' H; cbn in *.
  - now inversion H.
  - destruct (enqueue t k st) as [[e|[]] st1]; [discriminate|].
    now apply IH.
Qed.

(** Below the capacity every text is appended and nothing is observed. *)
Lemma enqueue_all_fits (ts : list string) (k : string) :
  forall st,
    blank k = false -> length (peek k st) + length ts <= CAPACITY ->
    exists st',
      enqueue_all ts k st = (inr tt, st')
      /\ peek k st' = peek k st ++ ts
      /\ observations st' = observations st
      /\ forall k2, k2 <> k -> peek k2 st' = peek k2 st.
Proof.
  induction ts as [|t ts IH]; intros st Hb Hlen; cbn in *.
  - exists st. rewrite app_nil_r. auto.
  - destruct (enqueue_accepts t k st Hb) as (st1 & Hs & Hp & Hobs & Hother).
    rewrite Hs.
    assert (Hfit : (CAPACITY <? S (length (peek k st))) = false)
      by (apply Nat.ltb_ge; lia).
    unfold pushed in Hp. rewrite Hfit in Hp, Hobs.
    destruct (IH st1 Hb) as (st' & Hs' & Hp' & Hobs' & Hother').
    { rewrite Hp, length_app. cbn. lia. }
    exists st'. split; [exact Hs'|]. split.
    + rewrite Hp', Hp, <- app_assoc. reflexivity.
    + split; [congruence|]. intros k2 Hne.
      rewrite Hother' by exact Hne. now apply Hother.
Qed.

(** C6: for session keys K2 <> K, enqueuing under K changes neither what
    peek nor what drainAndPrefix returns for K2, and what K2 holds after any
    history of enqueues and drains is what the operations made under K2
    alone would have left; drainAndPrefix K returns the sequence K holds, in
    arrival order, leaves K empty and leaves K2 alone. *)
Theorem C6_sessions_are_isolated
    (K K2 : string) (st : State) (ops : list Op) (ts : list string) :
  K2 <> K ->
  (forall t,
      peek K2 (snd (enqueue t K st)) = peek K2 st
      /\ fst (drainAndPrefix K2 (snd (enqueue t K st))) = fst (drainAndPrefix K2 st))
  /\ peek K2 (apply_ops ops st) =
     peek K2 (apply_ops (List.filter (fun o => String.eqb (op_key o) K2) ops) st)
  /\ fst (drainAndPrefix K st) = peek K st
  /\ peek K (snd (drainAndPrefix K st)) = []
  /\ peek K2 (snd (drainAndPrefix K st)) = peek K2 st
  /\ (blank K = false -> peek K st = [] -> length ts <= CAPACITY ->
      exists st',
        enqueue_all ts K st = (inr tt, st')
        /\ fst (drainAndPrefix K st') = ts
        /\ peek K2 st' = peek K2 st).
Proof.
  intros Hne. split; [|split; [|split; [|split; [|split]]]].
  - intros t. split.
    + now apply enqueue_other.
    + unfold drainAndPrefix. cbn. now apply enqueue_other.
  - now apply apply_ops_isolated.
  - reflexivity.
  - apply drain_same.
  - now apply drain_other.
  - intros Hb He Hlen.
    destruct (enqueue_all_fits ts K st Hb) as (st' & Hs & Hp & _ & Hother).
    { rewrite He. cbn. lia. }
    exists st'. split; [exact Hs|]. split.
    + unfold drainAndPrefix. cbn. rewrite Hp, He. reflexivity.
    + now apply Hother.
Qed.

Lemma C6_sessions_are_isolated_witness :
  "main" <> "discord:group:123"
  /\ peek "main" (snd (enqueue "Discord reaction added" "discord:group:123" init)) = []
  /\ exists st',
       enqueue_all ["a"; "b"; "c"] "discord:group:123" init = (inr tt, st')
       /\ fst (drainAndPrefix "discord:group:123" st') = ["a"; "b"; "c"]
       /\ peek "main" st' = [].
Proof.
  assert (Hne : "main" <> "discord:group:123") by discriminate.
  split; [exact Hne|].
  destruct (C6_sessions_are_isolated "discord:group:123" "main" init []
              ["a"; "b"; "c"] Hne) as (Henq & _ & _ & _ & _ & Hfifo).
  split.
  - exact (proj1 (Henq "Discord reaction added")).
  - apply Hfifo; [reflexivity | reflexivity | vm_compute; lia].
Defined.

(** C7: for a non-blank session key whose sequence is empty, enqueuing 21
    events leaves the key holding exactly the last 20 of them in arrival
    order (the oldest is evicted), with exactly one overflow observation
    added, carrying that key; the first 20 enqueues add no observation. *)
Theorem C7_overflow_drops_oldest (k : string) (ts : list string) (st : State) :
  blank k = false -> peek k st = [] -> length ts = 21 ->
  (exists st20,
      enqueue_all (firstn 20 ts) k st = (inr tt, st20)
      /\ peek k st20 = firstn 20 ts
      /\ observations st20 = observations st)
  /\ exists st21,
       enqueue_all ts k st = (inr tt, st21)
       /\ peek k st21 = skipn 1 ts
       /\ length (peek k st21) = 20
       /\ observations st21 = observations st ++ [overflow k].
Proof.
  intros Hb He Hlen.
  assert (Hsplit : ts = firstn 20 ts ++ skipn 20 ts)
    by (symmetry; apply firstn_skipn).
  assert (Hlen20 : length (firstn 20 ts) = 20) by (rewrite length_firstn; lia).
  destruct (skipn 20 ts) as [|t rest] eqn:Elast.
  { apply (f_equal (@length string)) in Elast. rewrite length_skipn in Elast.
    cbn in Elast. lia. }
  assert (rest = []) as ->.
  { apply (f_equal (@length string)) in Elast. rewrite length_skipn in Elast.
    cbn in Elast. destruct rest; [reflexivity | cbn in Elast; lia]. }
  destruct (enqueue_all_fits (firstn 20 ts) k st Hb)
    as (st20 & Hs & Hp & Hobs & _).
  { rewrite He, Hlen20. unfold CAPACITY. cbn. lia. }
  rewrite He in Hp. cbn in Hp.
  split; [exists st20; auto|].
  destruct (enqueue_accepts t k st20 Hb) as (st21 & Hs21 & Hp21 & Hobs21 & _).
  assert (Hfull : (CAPACITY <? S (length (peek k st20))) = true)
    by (rewrite Hp, Hlen20; reflexivity).
  unfold pushed in Hp21. rewrite Hfull in Hp21, Hobs21.
  exists st21.
  assert (Hpeek : peek k st21 = skipn 1 ts).
  { rewrite Hp21, Hp. rewrite Hsplit at 2.
    destruct (firstn 20 ts) as [|a l]; [discriminate|]. reflexivity. }
  split.
  - rewrite Hsplit. rewrite (enqueue_all_app _ [t] k st st20 Hs).
    cbn. now rewrite Hs21.
  - split; [exact Hpeek|]. split.
    + rewrite Hpeek, length_skipn. lia.
    + congruence.
Qed.

Lemma C7_overflow_drops_oldest_witness :
  blank "overflow-test" = false
  /\ length overflow_test_events = 21
  /\ exists st21,
       enqueue_all overflow_test_events "overflow-test" init = (inr tt, st21)
       /\ peek "overflow-test" st21 = skipn 1 overflow_test_events
       /\ observations st21 = [overflow "overflow-test"].
Proof.
  split; [reflexivity|]. split; [reflexivity|].
  destruct (C7_overflow_drops_oldest "overflow-test" overflow_test_events init
              eq_refl eq_refl eq_refl)
    as (_ & st21 & Hs & Hp & _ & Hobs).
  exists st21. auto.
Defined.

(** C8: for a blank or whitespace-only session key, enqueue returns the
    argument-validation error, whose message mentions sessionKey, and the
    queue state it returns is the one it was given. *)
Theorem C8_blank_key_rejected (text k : string) (st : State) :
  blank k = true ->
  exists msg,
    enqueue text k st = (inl (InvalidArgument msg), st)
    /\ mentions "sessionKey" msg = true.
Proof.
  intros Hb. exists missing_key_message. split.
  - now apply enqueue_rejects.
  - reflexivity.
Qed.

Lemma C8_blank_key_rejected_witness :
  blank " " = true
  /\ exists msg,
       enqueue "Node: Mac Studio" " " init = (inl (InvalidArgument msg), init)
       /\ mentions "sessionKey" msg = true.
Proof.
  split; [reflexivity|].
  exact (C8_blank_key_rejected "Node: Mac Studio" " " init eq_refl).
Defined.

(** *** The routing scenario of the test file, run on the model *)

Example does_not_leak_into_main :
  let st := snd (enqueue "Discord reaction added" "discord:group:123" init) in
  peek "main" st = []
  /\ peek "discord:group:123" st = ["Discord reaction added"]
  /\ fst (drainAndPrefix "main" st) = []
  /\ peek "discord:group:123" (snd (drainAndPrefix "main" st)) =
     ["Discord reaction added"]
  /\ fst (drainAndPrefix "discord:group:123" st) = ["Discord reaction added"]
  /\ peek "discord:group:123" (snd (drainAndPrefix "discord:group:123" st)) = [].
Proof. repeat split; vm_compute; reflexivity. Qed.

End QueueFacts.

(** ** Further properties of the wake scheduler *)

Module WakeExtras.
Import HeartbeatWake WakeFacts.

#[local] Arguments schedule : simpl never.

(** Case analysis on every test the callback code makes. *)
Ltac split_tests :=
  repeat match goal with
         | |- context [if ?b then _ else _] => destruct b eqn:?
         | |- context [match ?x with Some _ => _ | None => _ end] =>
             destruct x eqn:?
         end.

(** *** What resuming a callback leaves alone *)

Lemma resume_frame (k : Suspended) (o : Settled) (w : World) :
  invocations (callback_resume k o w) = invocations w
  /\ now (callback_resume k o w) = now w
  /\ handler (callback_resume k o w) = handler w
  /\ suspended (callback_resume k o w) = suspended w
  /\ scheduled (callback_resume k o w) = scheduled w
  /\ running (callback_resume k o w) = false.
Proof.
  unfold callback_resume, callback_finally, retry_or_give_up, schedule.
  destruct o as [[d|r|r]|]; cbn; split_tests; cbn; repeat split.
Qed.

(** An armed timer stays as it is when a callback resumes. *)
Lemma resume_armed (k : Suspended) (o : Settled) (w : World) (t : nat) :
  timer w = Some t ->
  timer (callback_resume k o w) = Some t
  /\ timeouts (callback_resume k o w) = timeouts w.
Proof.
  intros Ht. destruct w as [h0 p0 sc ru ti rc nw ts ni su iv wa].
  cbn in Ht. subst ti.
  unfold callback_resume, callback_finally, retry_or_give_up, schedule.
  destruct o as [[d|r|r]|]; cbn; split_tests; cbn in *;
    try discriminate; auto.
Qed.

(** Resuming a callback never disarms the timer. *)
Lemma resume_keeps_timer (k : Suspended) (o : Settled) (w : World) :
  timer w <> None -> timer (callback_resume k o w) <> None.
Proof.
  intros H. destruct (timer w) as [t|] eqn:Ht; [|congruence].
  destruct (resume_armed k o w t Ht) as [E _]. congruence.
Qed.

(** A property kept by every permitted step is kept by every run. *)
Lemma exec_preserves (P : World -> Prop) (ok : Event -> bool) :
  (forall e w w', ok e = true -> P w -> step e w = Some w' -> P w') ->
  forall es w w',
    forallb ok es = true -> P w -> exec es w = Some w' -> P w'.
Proof.
  intros Hstep es. induction es as [|e es IH]; intros w w' Hok HP Hex; cbn in *.
  - now inversion Hex; subst.
  - apply andb_true_iff in Hok. destruct Hok as [He Hes].
    destruct (step e w) as [w1|] eqn:E; [|discriminate].
    apply (IH w1 w' Hes); [|exact Hex]. exact (Hstep e w w1 He HP E).
Qed.

Lemma forallb_all_true {A : Type} (l : list A) :
  forallb (fun _ => true) l = true.
Proof. induction l; cbn; auto. Qed.

(** *** The handler is called by the timer callback only *)

(** X1: no entry point calls the handler itself: requestHeartbeatNow,
    setHeartbeatWakeHandler, the reset, the passing of time and a settling
    promise leave the invocation trace as it is.  A firing timer adds at most
    one invocation, and only with a handler registered and no run in
    progress; the invocation is given the pending reason, which is thereby
    consumed, and sets running. *)
Theorem X1_handler_invoked_only_by_timer (e : Event) (w w' : World) :
  step e w = Some w' ->
  invocations w' = invocations w
  \/ exists t h,
       e = TimerFires t /\ handler w = Some h /\ running w = false
       /\ invocations w' = invocations w ++ [mkInvocation h (pendingReason w)]
       /\ pendingReason w' = None /\ running w' = true /\ timer w' = None.
Proof.
  intros Hstep. destruct e as [opts|next| |ms|t|i o]; cbn in Hstep.
  - inversion Hstep; subst. left. unfold requestHeartbeatNow.
    destruct (schedule_frame (default DEFAULT_COALESCE_MS (o_coalesceMs opts))
                (set_pendingReason
                   (Some (nullish (o_reason opts)
                            (nullish (pendingReason w) "requested"))) w))
      as (_ & _ & _ & _ & _ & _ & _ & E & _). exact E.
  - inversion Hstep; subst. left. unfold setHeartbeatWakeHandler. cbn.
    destruct next as [h|]; [|reflexivity].
    destruct (truthy (pendingReason w)); [|reflexivity].
    destruct (schedule_frame DEFAULT_COALESCE_MS (set_handler (Some h) w))
      as (_ & _ & _ & _ & _ & _ & _ & E & _). exact E.
  - inversion Hstep; subst. left. unfold resetHeartbeatWakeForTest.
    cbn. destruct (timer w); reflexivity.
  - inversion Hstep; subst. left. reflexivity.
  - unfold timer_fires in Hstep.
    destruct (List.find _ _) as [x|]; [|discriminate].
    destruct (deadline x <=? now w); [|discriminate].
    inversion Hstep; subst. unfold callback_start. cbn.
    destruct (handler w) as [h|] eqn:Eh; [|left; reflexivity].
    destruct (running w) eqn:Er.
    + left.
      match goal with
      | |- invocations (schedule ?c ?v) = _ =>
          destruct (schedule_frame c v) as (_ & _ & _ & _ & _ & _ & _ & E & _)
      end. exact E.
    + right. exists t, h. cbn. auto 10.
  - unfold handler_settles in Hstep.
    destruct (suspended w !! i) as [k|]; [|discriminate].
    inversion Hstep; subst. left.
    destruct (resume_frame k o (set_suspended (delete i (suspended w)) w))
      as (E & _). exact E.
Qed.

Lemma X1_handler_invoked_only_by_timer_witness :
  invocations in_flight_world = [mkInvocation 1 (Some "hook:wake")]
  /\ invocations
       (requestHeartbeatNow (mkWakeOpts (Some "again") None) in_flight_world) =
     invocations in_flight_world.
Proof.
  split; [reflexivity|].
  destruct (X1_handler_invoked_only_by_timer
              (RequestHeartbeatNow (mkWakeOpts (Some "again") None))
              in_flight_world _ eq_refl)
    as [E|(t & h & Hfire & _)]; [exact E | discriminate].
Defined.

(** *** One invocation at a time *)

Lemma exclusive_step (e : Event) (w w' : World) :
  not_a_reset e = true -> exclusive w -> step e w = Some w' -> exclusive w'.
Proof.
  intros He Hx Hstep.
  destruct e as [opts|next| |ms|t|i o]; cbn in Hstep; try discriminate.
  - inversion Hstep; subst. unfold requestHeartbeatNow, exclusive in *.
    match goal with
    | |- context [schedule ?c ?v] =>
        destruct (schedule_frame c v) as (_ & _ & _ & Er & _ & _ & Es & _)
    end. rewrite Er, Es. exact Hx.
  - inversion Hstep; subst. unfold setHeartbeatWakeHandler. cbn.
    destruct next as [h|]; [|exact Hx].
    destruct (truthy (pendingReason w)); [|exact Hx].
    unfold exclusive in *.
    match goal with
    | |- context [schedule ?c ?v] =>
        destruct (schedule_frame c v) as (_ & _ & _ & Er & _ & _ & Es & _)
    end. rewrite Er, Es. exact Hx.
  - inversion Hstep; subst. exact Hx.
  - unfold timer_fires in Hstep.
    destruct (List.find _ _) as [x|]; [|discriminate].
    destruct (deadline x <=? now w); [|discriminate].
    inversion Hstep; subst. unfold callback_start. cbn.
    destruct (handler w) as [h|]; [|exact Hx].
    destruct (running w) eqn:Er.
    + unfold exclusive in *.
      match goal with
      | |- context [schedule ?c ?v] =>
          destruct (schedule_frame c v) as (_ & _ & _ & Er' & _ & _ & Es & _)
      end. rewrite Er', Es. cbn. rewrite Er. rewrite Er in Hx. exact Hx.
    + destruct Hx as [[Hr _]|[_ Hs]]; [congruence|].
      left. cbn. rewrite Hs. split; [reflexivity | eauto].
  - unfold handler_settles in Hstep.
    destruct (suspended w !! i) as [k|] eqn:Ek; [|discriminate].
    inversion Hstep; subst.
    destruct (resume_frame k o (set_suspended (delete i (suspended w)) w))
      as (_ & _ & _ & Es & _ & Er).
    right. split; [exact Er|]. rewrite Es. cbn.
    destruct Hx as [[_ (k0 & Hs)]|[_ Hs]]; rewrite Hs in *.
    + destruct i as [|i]; [reflexivity | discriminate].
    + discriminate.
Qed.

(** X2: in every run from the initial state without the test reset, at most
    one handler invocation is in flight at any time, and running is set
    exactly while there is one. *)
Theorem X2_one_invocation_at_a_time (es : list Event) (w : World) :
  forallb not_a_reset es = true -> exec es init = Some w ->
  length (suspended w) <= 1
  /\ (running w = true <-> length (suspended w) = 1).
Proof.
  intros Hes Hex.
  assert (Hx : exclusive w).
  { apply (exec_preserves exclusive not_a_reset exclusive_step es init w Hes);
      [|exact Hex]. right. split; reflexivity. }
  destruct Hx as [[Hr (k & Hs)]|[Hr Hs]]; rewrite Hr, Hs; cbn.
  - split; [lia|]. split; auto.
  - split; [lia|]. split; discriminate.
Qed.

Lemma X2_one_invocation_at_a_time_witness :
  length (suspended in_flight_world) <= 1
  /\ (running in_flight_world = true <-> length (suspended in_flight_world) = 1).
Proof.
  apply (X2_one_invocation_at_a_time
           [SetHeartbeatWakeHandler (Some 1);
            RequestHeartbeatNow (mkWakeOpts (Some "hook:wake") None);
            Elapse 300; TimerFires 0]); vm_compute; reflexivity.
Defined.

(** The hypothesis of X2 is needed: after a reset in mid-run the guard is
    clear while the old invocation is still in flight, and a second one can
    begin. *)
Example reset_in_mid_run_defeats_the_guard :
  exists w,
    exec [SetHeartbeatWakeHandler (Some 1);
          RequestHeartbeatNow (mkWakeOpts None None);
          Elapse 250; TimerFires 0;
          ResetHeartbeatWakeForTest;
          SetHeartbeatWakeHandler (Some 1);
          RequestHeartbeatNow (mkWakeOpts None None);
          Elapse 250; TimerFires 1] init = Some w
    /\ length (suspended w) = 2.
Proof. eexists. split; [vm_compute; reflexivity | reflexivity]. Qed.

(** *** A pending wake always has a timer *)

Lemma finally_never_stranded (c : nat) (w : World) :
  never_stranded (callback_finally c w).
Proof.
  unfold never_stranded, callback_finally.
  destruct (truthy (pendingReason (set_running false w))
            || scheduled (set_running false w)) eqn:E.
  - intros _ _. apply schedule_arms.
  - apply orb_false_iff in E. destruct E as [E _]. cbn in *. congruence.
Qed.

Lemma never_stranded_step (e : Event) (w w' : World) :
  never_stranded w -> step e w = Some w' -> never_stranded w'.
Proof.
  intros Hpre Hstep. destruct e as [opts|next| |ms|t|i o]; cbn in Hstep.
  - inversion Hstep; subst. intros _ _. apply schedule_arms.
  - inversion Hstep; subst. unfold setHeartbeatWakeHandler. cbn.
    destruct next as [h|].
    + destruct (truthy (pendingReason w)) eqn:E.
      * intros _ _. apply schedule_arms.
      * unfold never_stranded. cbn. congruence.
    + unfold never_stranded. cbn. congruence.
  - inversion Hstep; subst. unfold never_stranded, resetHeartbeatWakeForTest.
    cbn. destruct (timer w); cbn; discriminate.
  - inversion Hstep; subst. exact Hpre.
  - unfold timer_fires in Hstep.
    destruct (List.find _ _) as [x|]; [|discriminate].
    destruct (deadline x <=? now w); [|discriminate].
    inversion Hstep; subst. unfold callback_start. cbn.
    destruct (handler w) as [h|] eqn:Eh.
    + destruct (running w).
      * intros _ _. apply schedule_arms.
      * unfold never_stranded. cbn. discriminate.
    + unfold never_stranded. cbn. congruence.
  - unfold handler_settles in Hstep.
    destruct (suspended w !! i) as [k|]; [|discriminate].
    inversion Hstep; subst. unfold callback_resume.
    apply finally_never_stranded.
Qed.

(** X3: in every reachable state, a pending reason that is a non-empty
    string, together with a registered handler, comes with an armed timer
    (exactly one outstanding handle): a wake that can be served is never left
    without a timer to serve it. *)
Theorem X3_pending_wake_never_stranded (es : list Event) (w : World) :
  exec es init = Some w ->
  truthy (pendingReason w) = true -> handler w <> None ->
  exists t x, timer w = Some t /\ timeouts w = [x] /\ tid x = t.
Proof.
  intros Hex Hp Hh.
  assert (Hns : never_stranded w).
  { apply (exec_preserves never_stranded (fun _ => true)
             (fun e v v' _ => never_stranded_step e v v') es init w);
      [apply forallb_all_true | | exact Hex].
    unfold never_stranded. cbn. discriminate. }
  assert (Hinv : SchedulerInv w) by (apply (exec_inv es init w init_inv Hex)).
  destruct Hinv as [Hslot _]. unfold timer_slot_ok in Hslot.
  destruct (timer w) as [t|] eqn:Et.
  - destruct Hslot as (x & Hts & Hx). eauto.
  - exfalso. now apply (Hns Hp Hh).
Qed.

Lemma X3_pending_wake_never_stranded_witness :
  let w := after [RequestHeartbeatNow (mkWakeOpts (Some "early") None);
                  Elapse 250; TimerFires 0;
                  SetHeartbeatWakeHandler (Some 1)] in
  truthy (pendingReason w) = true
  /\ exists t x, timer w = Some t /\ timeouts w = [x] /\ tid x = t.
Proof.
  intros w. split; [reflexivity|].
  apply (X3_pending_wake_never_stranded
           [RequestHeartbeatNow (mkWakeOpts (Some "early") None);
            Elapse 250; TimerFires 0;
            SetHeartbeatWakeHandler (Some 1)] w).
  - vm_compute. reflexivity.
  - reflexivity.
  - vm_compute. discriminate.
Defined.

(** *** The re-arm flag *)

Lemma flag_has_timer_step (e : Event) (w w' : World) :
  flag_has_timer w -> step e w = Some w' -> flag_has_timer w'.
Proof.
  intros Hpre Hstep. destruct e as [opts|next| |ms|t|i o]; cbn in Hstep.
  - inversion Hstep; subst. intros _. apply schedule_arms.
  - inversion Hstep; subst. unfold setHeartbeatWakeHandler. cbn.
    destruct next as [h|]; [|exact Hpre].
    destruct (truthy (pendingReason w)); [|exact Hpre].
    intros _. apply schedule_arms.
  - inversion Hstep; subst. unfold flag_has_timer, resetHeartbeatWakeForTest.
    cbn. destruct (timer w); cbn; discriminate.
  - inversion Hstep; subst. exact Hpre.
  - unfold timer_fires in Hstep.
    destruct (List.find _ _) as [x|]; [|discriminate].
    destruct (deadline x <=? now w); [|discriminate].
    inversion Hstep; subst. unfold callback_start. cbn.
    destruct (handler w) as [h|].
    + destruct (running w).
      * intros _. apply schedule_arms.
      * unfold flag_has_timer. cbn. discriminate.
    + unfold flag_has_timer. cbn. discriminate.
  - unfold handler_settles in Hstep.
    destruct (suspended w !! i) as [k|]; [|discriminate].
    inversion Hstep; subst. intros Hs.
    destruct (resume_frame k o (set_suspended (delete i (suspended w)) w))
      as (_ & _ & _ & _ & Esc & _).
    rewrite Esc in Hs. apply resume_keeps_timer. exact (Hpre Hs).
Qed.

(** X4: in every reachable state the re-arm flag is set only while a timer
    is armed, so hasPendingHeartbeatWake answers true exactly when a reason
    is pending or a timer is armed. *)
Theorem X4_rearm_flag_implies_timer (es : list Event) (w : World) :
  exec es init = Some w ->
  (scheduled w = true -> timer w <> None)
  /\ (hasPendingHeartbeatWake w = true <->
      (pendingReason w <> None \/ timer w <> None)).
Proof.
  intros Hex.
  assert (Hf : flag_has_timer w).
  { apply (exec_preserves flag_has_timer (fun _ => true)
             (fun e v v' _ => flag_has_timer_step e v v') es init w);
      [apply forallb_all_true | | exact Hex].
    unfold flag_has_timer. cbn. discriminate. }
  split; [exact Hf|]. unfold hasPendingHeartbeatWake.
  unfold flag_has_timer in Hf.
  destruct (pendingReason w), (timer w), (scheduled w); cbn; split; intros H;
    try reflexivity; try discriminate;
    try (left; discriminate); try (right; discriminate).
  - exfalso. now apply Hf.
  - destruct H; congruence.
Qed.

Lemma X4_rearm_flag_implies_timer_witness :
  let w := after [SetHeartbeatWakeHandler (Some 1);
                  RequestHeartbeatNow (mkWakeOpts None None);
                  Elapse 250; TimerFires 0;
                  RequestHeartbeatNow (mkWakeOpts None (Some 10));
                  Elapse 10; TimerFires 1] in
  scheduled w = true /\ timer w <> None.
Proof.
  intros w. split; [reflexivity|].
  apply (X4_rearm_flag_implies_timer
           [SetHeartbeatWakeHandler (Some 1);
            RequestHeartbeatNow (mkWakeOpts None None);
            Elapse 250; TimerFires 0;
            RequestHeartbeatNow (mkWakeOpts None (Some 10));
            Elapse 10; TimerFires 1] w).
  - vm_compute. reflexivity.
  - reflexivity.
Defined.

(** *** The armed timer's deadline is respected *)

Lemma armed_step (e : Event) (w w' : World) (t : nat) (x : Timeout) :
  timer w = Some t -> timeouts w = [x] -> tid x = t ->
  now w < deadline x -> not_a_reset e = true -> step e w = Some w' ->
  timer w' = Some t /\ timeouts w' = [x]
  /\ invocations w' = invocations w
  /\ now w' = now w + elapsed [e].
Proof.
  intros Ht Hts Hx Hnow He Hstep.
  destruct e as [opts|next| |ms|t'|i o]; cbn in Hstep; try discriminate.
  - inversion Hstep; subst w'. rewrite (request_when_armed opts w t Ht).
    cbn. auto.
  - inversion Hstep; subst w'. unfold setHeartbeatWakeHandler. cbn.
    destruct next as [h|]; [|cbn; auto].
    destruct (truthy (pendingReason w)); [|cbn; auto].
    rewrite (schedule_armed _ _ t) by exact Ht. cbn. auto.
  - inversion Hstep; subst w'. cbn. auto.
  - unfold timer_fires in Hstep. rewrite Hts in Hstep. cbn in Hstep.
    destruct (Nat.eqb (tid x) t'); [|discriminate].
    apply Nat.leb_gt in Hnow. rewrite Hnow in Hstep. discriminate.
  - unfold handler_settles in Hstep.
    destruct (suspended w !! i) as [k|]; [|discriminate].
    inversion Hstep; subst w'.
    destruct (resume_armed k o (set_suspended (delete i (suspended w)) w) t Ht)
      as [Et Ets].
    destruct (resume_frame k o (set_suspended (delete i (suspended w)) w))
      as (Ei & En & _).
    rewrite Et, Ets, Ei, En. cbn. auto.
Qed.

(** X5: once a timer is armed, no handler invocation happens before its
    deadline and the timer stays the one armed, whatever is requested,
    registered or settled meanwhile (the test reset apart): the coalescing
    delay cannot be shortened or bypassed. *)
Theorem X5_no_invocation_before_deadline
    (es : list Event) (w w' : World) (t : nat) (x : Timeout) :
  timer w = Some t -> timeouts w = [x] -> tid x = t ->
  forallb not_a_reset es = true ->
  now w + elapsed es < deadline x ->
  exec es w = Some w' ->
  invocations w' = invocations w /\ timeouts w' = [x] /\ timer w' = Some t.
Proof.
  revert w. induction es as [|e es IH]; intros w Ht Hts Hx Hes Hnow Hex.
  - cbn in Hex. inversion Hex; subst. auto.
  - cbn in Hes. apply andb_true_iff in Hes. destruct Hes as [He Hes].
    cbn [exec] in Hex. destruct (step e w) as [w1|] eqn:E; [|discriminate].
    assert (Hsum : elapsed (e :: es) = elapsed [e] + elapsed es).
    { unfold elapsed. cbn. destruct e; lia. }
    destruct (armed_step e w w1 t x Ht Hts Hx ltac:(lia) He E)
      as (Ht1 & Hts1 & Hi1 & Hn1).
    destruct (IH w1 Ht1 Hts1 Hx Hes ltac:(lia) Hex) as (Hi & Hts' & Ht').
    split; [congruence | auto].
Qed.

Lemma X5_no_invocation_before_deadline_witness :
  let w := requestHeartbeatNow (mkWakeOpts (Some "first") None)
             (setHeartbeatWakeHandler (Some 1) init) in
  let es := [Elapse 100;
             RequestHeartbeatNow (mkWakeOpts (Some "second") (Some 0));
             SetHeartbeatWakeHandler (Some 2); Elapse 149] in
  now w + elapsed es < 250
  /\ invocations (default init (exec es w)) = []
  /\ timeouts (default init (exec es w)) = [mkTimeout 0 250 250].
Proof.
  intros w es. split; [vm_compute; lia|].
  assert (Hex : exec es w = Some (default init (exec es w)))
    by (vm_compute; reflexivity).
  destruct (X5_no_invocation_before_deadline es w _ 0 (mkTimeout 0 250 250)
              eq_refl eq_refl eq_refl eq_refl ltac:(vm_compute; lia) Hex)
    as (Hi & Hts & _).
  split; [exact Hi | exact Hts].
Defined.

(** *** A timer that fires during a run *)

(** X6: a timer that fires while a run is in progress does not invoke the
    handler: it sets the re-arm flag and arms a new timer with the same
    delay, counted from now, leaving the pending reason in place. *)
Theorem X6_fire_during_run_rearms
    (w : World) (t : nat) (x : Timeout) (h : HeartbeatWakeHandler) :
  timer w = Some t -> timeouts w = [x] -> tid x = t ->
  deadline x <= now w -> handler w = Some h -> running w = true ->
  exists w',
    timer_fires t w = Some w'
    /\ invocations w' = invocations w /\ suspended w' = suspended w
    /\ pendingReason w' = pendingReason w /\ running w' = true
    /\ scheduled w' = true
    /\ timer w' = Some (nextId w)
    /\ timeouts w' = [mkTimeout (nextId w) (now w + delay x) (delay x)].
Proof.
  intros Ht Hts Hx Hd Hh Hr. unfold timer_fires. rewrite Hts. cbn.
  rewrite Hx, Nat.eqb_refl. apply Nat.leb_le in Hd. rewrite Hd.
  eexists. split; [reflexivity|].
  unfold callback_start, clearTimeout. cbn. rewrite Hh, Hr, Hts. cbn.
  rewrite Hx, Nat.eqb_refl. cbn. unfold schedule. cbn. auto 10.
Qed.

Lemma X6_fire_during_run_rearms_witness :
  let w := after [SetHeartbeatWakeHandler (Some 1);
                  RequestHeartbeatNow (mkWakeOpts None None);
                  Elapse 250; TimerFires 0;
                  RequestHeartbeatNow (mkWakeOpts (Some "late") (Some 10));
                  Elapse 10] in
  exists w',
    timer_fires 1 w = Some w'
    /\ invocations w' = invocations w
    /\ pendingReason w' = Some "late"
    /\ timeouts w' = [mkTimeout 2 270 10].
Proof.
  intros w.
  destruct (X6_fire_during_run_rearms w 1 (mkTimeout 1 260 10) 1
              eq_refl eq_refl eq_refl ltac:(vm_compute; lia) eq_refl eq_refl)
    as (w' & Hf & Hi & _ & Hp & _ & _ & _ & Hts).
  exists w'. auto.
Defined.

(** *** The test reset *)

(** X7: the test reset puts the six module variables back to their initial
    values and clears the armed timer, so that no timer is left to fire and
    both observers answer false; it does not cancel an invocation in flight,
    whose callback stays suspended. *)
Theorem X7_reset_restores_initial_variables (w : World) :
  SchedulerInv w ->
  let w' := resetHeartbeatWakeForTest w in
  handler w' = handler init /\ pendingReason w' = pendingReason init
  /\ scheduled w' = scheduled init /\ running w' = running init
  /\ timer w' = timer init /\ retryCount w' = retryCount init
  /\ timeouts w' = []
  /\ (forall t, timer_fires t w' = None)
  /\ hasPendingHeartbeatWake w' = false
  /\ hasHeartbeatWakeHandler w' = false
  /\ suspended w' = suspended w /\ invocations w' = invocations w.
Proof.
  intros [Hslot _] w'. subst w'.
  assert (Hts : timeouts (resetHeartbeatWakeForTest w) = []).
  { unfold resetHeartbeatWakeForTest. cbn.
    destruct (timer w) as [t|] eqn:Et; cbn.
    - now apply clear_own_timeout.
    - unfold timer_slot_ok in Hslot. now rewrite Et in Hslot. }
  assert (Hfire : forall t, timer_fires t (resetHeartbeatWakeForTest w) = None)
    by (intros t; apply no_timeout_no_fire; exact Hts).
  split; [unfold resetHeartbeatWakeForTest; cbn; destruct (timer w); reflexivity|].
  split; [unfold resetHeartbeatWakeForTest; cbn; destruct (timer w); reflexivity|].
  split; [unfold resetHeartbeatWakeForTest; cbn; destruct (timer w); reflexivity|].
  split; [unfold resetHeartbeatWakeForTest; cbn; destruct (timer w); reflexivity|].
  split; [reflexivity|]. split; [reflexivity|].
  split; [exact Hts|]. split; [exact Hfire|].
  split; [unfold hasPendingHeartbeatWake, resetHeartbeatWakeForTest; cbn;
          destruct (timer w); reflexivity|].
  split; [unfold hasHeartbeatWakeHandler, resetHeartbeatWakeForTest; cbn;
          destruct (timer w); reflexivity|].
  split; unfold resetHeartbeatWakeForTest; cbn; destruct (timer w); reflexivity.
Qed.

Lemma X7_reset_restores_initial_variables_witness :
  timeouts in_flight_world = []
  /\ timeouts (resetHeartbeatWakeForTest hook_wake_requested) = []
  /\ hasPendingHeartbeatWake (resetHeartbeatWakeForTest hook_wake_requested) = false.
Proof.
  split; [reflexivity|].
  destruct (X7_reset_restores_initial_variables hook_wake_requested)
    as (_ & _ & _ & _ & _ & _ & Hts & _ & Hp & _).
  - split; [|vm_compute; lia]. exists (mkTimeout 0 250 250). split; reflexivity.
  - split; [exact Hts | exact Hp].
Defined.

(** *** A wake requested before a handler exists *)

Lemma fire_without_handler (w : World) (t : nat) (x : Timeout) :
  timer w = Some t -> timeouts w = [x] -> tid x = t ->
  deadline x <= now w -> handler w = None ->
  timer_fires t w =
  Some (set_scheduled false (set_timer None (set_timeouts [] w))).
Proof.
  intros Ht Hts Hx Hd Hh. unfold timer_fires. rewrite Hts. cbn.
  rewrite Hx, Nat.eqb_refl. apply Nat.leb_le in Hd. rewrite Hd.
  unfold callback_start, clearTimeout. cbn.
  rewrite Hh, Hts. cbn. rewrite Hx, Nat.eqb_refl. reflexivity.
Qed.

(** The state after a wake request made with no handler and no timer, once
    its timer has fired: the reason is kept, nothing is armed. *)
Lemma request_then_fire_without_handler (w : World) (opts : WakeOpts) :
  handler w = None -> timer w = None -> timeouts w = [] ->
  exec [RequestHeartbeatNow opts;
        Elapse (default DEFAULT_COALESCE_MS (o_coalesceMs opts));
        TimerFires (nextId w)] w =
  Some (set_scheduled false
          (set_now (now w + default DEFAULT_COALESCE_MS (o_coalesceMs opts))
             (set_nextId (S (nextId w))
                (set_pendingReason
                   (Some (nullish (o_reason opts)
                            (nullish (pendingReason w) "requested"))) w)))).
Proof.
  intros Hh Ht Hts. cbn [exec step]. unfold requestHeartbeatNow.
  rewrite schedule_idle by exact Ht.
  erewrite fire_without_handler.
  - destruct w as [h0 p0 sc ru ti rc nw ts ni su iv wa]. cbn in *. subst.
    reflexivity.
  - reflexivity.
  - cbn. rewrite Hts. reflexivity.
  - reflexivity.
  - cbn. lia.
  - exact Hh.
Qed.



Lemma dormant_step (e : Event) (w w' : World) :
  not_a_request e = true -> dormant w -> step e w = Some w' ->
  dormant w' /\ invocations w' = invocations w.
Proof.
  intros He (Ht & Hts & Hp & Hs) Hstep.
  destruct e as [opts|next| |ms|t|i o]; cbn in He, Hstep; try discriminate.
  - inversion Hstep; subst. unfold setHeartbeatWakeHandler, dormant. cbn.
    rewrite Hp. destruct next; cbn; auto.
  - inversion Hstep; subst. unfold resetHeartbeatWakeForTest, dormant. cbn.
    rewrite Ht. cbn. auto.
  - inversion Hstep; subst. unfold dormant. cbn. auto.
  - rewrite no_timeout_no_fire in Hstep by exact Hts. discriminate.
  - unfold handler_settles in Hstep. rewrite Hs in Hstep. discriminate.
Qed.

Lemma dormant_exec (es : list Event) :
  forall w w', forallb not_a_request es = true -> dormant w ->
    exec es w = Some w' -> dormant w' /\ invocations w' = invocations w.
Proof.
  induction es as [|e es IH]; intros w w' Hes Hd Hex; cbn in *.
  - inversion Hex; subst. auto.
  - apply andb_true_iff in Hes. destruct Hes as [He Hes].
    destruct (step e w) as [w1|] eqn:E; [|discriminate].
    destruct (dormant_step e w w1 He Hd E) as [Hd1 Hi1].
    destruct (IH w1 w' Hes Hd1 Hex) as [Hd' Hi']. split; congruence.
Qed.

(** X9: a wake whose reason is the empty string, requested while no handler
    is registered, is not served by a later registration: after its timer
    has fired, setHeartbeatWakeHandler arms nothing (the reason is falsy),
    hasPendingHeartbeatWake still answers true (the reason is not null), and
    no continuation without a new wake request invokes the handler. *)
Theorem X9_empty_reason_wake_is_not_served
    (w : World) (opts : WakeOpts) (h : HeartbeatWakeHandler) :
  handler w = None -> timer w = None -> timeouts w = [] -> suspended w = [] ->
  nullish (o_reason opts) (nullish (pendingReason w) "requested") = "" ->
  exists w1,
    exec [RequestHeartbeatNow opts;
          Elapse (default DEFAULT_COALESCE_MS (o_coalesceMs opts));
          TimerFires (nextId w)] w = Some w1
    /\ let w2 := setHeartbeatWakeHandler (Some h) w1 in
       handler w2 = Some h /\ timer w2 = None /\ timeouts w2 = []
       /\ pendingReason w2 = Some ""
       /\ hasPendingHeartbeatWake w2 = true
       /\ forall es w3,
            forallb not_a_request es = true -> exec es w2 = Some w3 ->
            invocations w3 = invocations w.
Proof.
  intros Hh Ht Hts Hs Hp.
  eexists. split; [apply request_then_fire_without_handler; assumption|].
  rewrite Hp. unfold setHeartbeatWakeHandler. cbn.
  do 4 (split; [assumption || reflexivity|]).
  split; [unfold hasPendingHeartbeatWake; reflexivity|].
  intros es w3 Hes Hex.
  match type of Hex with
  | exec es ?v = _ =>
      assert (Hd : dormant v) by (unfold dormant; cbn; auto);
      destruct (dormant_exec es v w3 Hes Hd Hex) as [_ Hi]
  end.
  exact Hi.
Qed.

Lemma X9_empty_reason_wake_is_not_served_witness :
  exists w1,
    exec [RequestHeartbeatNow (mkWakeOpts (Some "") None); Elapse 250;
          TimerFires 0] init = Some w1
    /\ timeouts (setHeartbeatWakeHandler (Some 3) w1) = []
    /\ hasPendingHeartbeatWake (setHeartbeatWakeHandler (Some 3) w1) = true.
Proof.
  destruct (X9_empty_reason_wake_is_not_served init (mkWakeOpts (Some "") None) 3
              eq_refl eq_refl eq_refl eq_refl eq_refl)
    as (w1 & H1 & _ & _ & Hts & _ & Hp & _).
  exists w1. auto.
Defined.

(** *** A wake requested during a run that ends without a retry *)

(** X10: a wake requested while an invocation is in flight is served after
    that invocation ends with a ran or failed result or a disabled skip:
    the completion resets retryCount and leaves the requested reason and
    the armed timer in place, and the timer's firing invokes the handler
    with the requested reason. *)
Theorem X10_request_during_run_is_served
    (w : World) (i : nat) (k : Suspended) (opts : WakeOpts) (o : Settled) :
  SchedulerInv w -> suspended w !! i = Some k -> transient o = false ->
  let p := nullish (o_reason opts) (nullish (pendingReason w) "requested") in
  let w1 := requestHeartbeatNow opts w in
  exists w2 t x,
    handler_settles i o w1 = Some w2
    /\ pendingReason w2 = Some p /\ retryCount w2 = 0 /\ running w2 = false
    /\ timer w2 = Some t /\ timeouts w2 = [x] /\ tid x = t
    /\ timeouts w2 = timeouts w1
    /\ forall h, handler w2 = Some h ->
         exists w3,
           exec [Elapse (deadline x - now w2); TimerFires t] w2 = Some w3
           /\ invocations w3 = invocations w2 ++ [mkInvocation h (Some p)].
Proof.
  intros Hinv Hk Ho p w1.
  assert (Hinv1 : SchedulerInv w1).
  { apply (step_inv (RequestHeartbeatNow opts) w); auto. }
  assert (Hframe := schedule_frame
                      (default DEFAULT_COALESCE_MS (o_coalesceMs opts))
                      (set_pendingReason (Some p) w)).
  assert (Hw1 : w1 = schedule (default DEFAULT_COALESCE_MS (o_coalesceMs opts))
                       (set_pendingReason (Some p) w)) by reflexivity.
  rewrite <- Hw1 in Hframe. cbn in Hframe.
  destruct Hframe as (Hh & Hp & Hsc & Hrun & Hrc & Hnow & Hsus & Hi & Hwarn).
  destruct (timer w1) as [t|] eqn:Et.
  2:{ exfalso. rewrite Hw1 in Et. now apply schedule_arms in Et. }
  destruct Hinv1 as [Hslot _]. unfold timer_slot_ok in Hslot. rewrite Et in Hslot.
  destruct Hslot as (x & Hts & Hx).
  rewrite <- Hsus in Hk.
  destruct (settle_permanent w1 i k o Hk Ho)
    as (w2 & Hs & _ & Hrc2 & Hrun2 & Hp2 & _ & Hi2 & _ & _ & _ & Harmed & _).
  destruct (Harmed t Et) as [Ht2 Hts2].
  exists w2, t, x. split; [exact Hs|]. split; [congruence|].
  split; [exact Hrc2|]. split; [exact Hrun2|]. split; [exact Ht2|].
  split; [congruence|]. split; [exact Hx|]. split; [exact Hts2|].
  intros h Hh'. eexists. split.
  - apply (fire_after_wait w2 t x h); congruence.
  - cbn. rewrite Hp2, Hp. reflexivity.
Qed.

Lemma X10_request_during_run_is_served_witness :
  let w1 := requestHeartbeatNow (mkWakeOpts (Some "manual") None) in_flight_world in
  exists w2 t x,
    handler_settles 0 (resolved (ran 5)) w1 = Some w2
    /\ pendingReason w2 = Some "manual" /\ retryCount w2 = 0
    /\ timer w2 = Some t /\ timeouts w2 = [x] /\ tid x = t
    /\ forall h, handler w2 = Some h ->
         exists w3,
           exec [Elapse (deadline x - now w2); TimerFires t] w2 = Some w3
           /\ invocations w3 = invocations w2 ++ [mkInvocation h (Some "manual")].
Proof.
  intros w1.
  destruct (X10_request_during_run_is_served in_flight_world 0
              (mkSuspended (Some "hook:wake") 250)
              (mkWakeOpts (Some "manual") None) (resolved (ran 5)))
    as (w2 & t & x & Hs & Hp & Hrc & _ & Ht & Hts & Hx & _ & Hfire).
  - split; [reflexivity | vm_compute; lia].
  - reflexivity.
  - reflexivity.
  - exists w2, t, x. auto 10.
Defined.

(** *** Which reason and which delay a burst of requests leaves *)

Lemma request_all_reason (calls : list WakeOpts) :
  forall w,
    pendingReason (request_all calls w) = reason_after calls (pendingReason w).
Proof.
  induction calls as [|o calls IH]; intros w; [reflexivity|].
  change (request_all (o :: calls) w)
    with (request_all calls (requestHeartbeatNow o w)).
  rewrite IH. unfold requestHeartbeatNow.
  match goal with
  | |- context [schedule ?c ?v] =>
      destruct (schedule_frame c v) as (_ & E & _)
  end. rewrite E. reflexivity.
Qed.

Lemma reason_after_snoc (calls : list WakeOpts) (o : WakeOpts) (p : option string) :
  reason_after (calls ++ [o]) p =
  Some (nullish (o_reason o) (nullish (reason_after calls p) "requested")).
Proof. unfold reason_after. now rewrite fold_left_app. Qed.

Lemma last_explicit_snoc (calls : list WakeOpts) (o : WakeOpts) :
  last_explicit (calls ++ [o]) =
  match o_reason o with
  | Some r => Some r
  | None => last_explicit calls
  end.
Proof. unfold last_explicit. now rewrite fold_left_app. Qed.

(** X11: after any non-empty sequence of requestHeartbeatNow calls the
    pending reason is the reason of the last call that gave one; if none
    did, it is the reason that was pending before, and failing that the
    marker requested. *)
Theorem X11_latest_explicit_reason_wins (calls : list WakeOpts) (w : World) :
  calls <> [] ->
  pendingReason (request_all calls w) =
  Some (nullish (last_explicit calls) (nullish (pendingReason w) "requested")).
Proof.
  intros Hne. rewrite request_all_reason.
  induction calls as [|o calls IH] using rev_ind; [congruence|].
  rewrite reason_after_snoc, last_explicit_snoc.
  destruct (o_reason o) as [r|]; [reflexivity|]. cbn [nullish].
  destruct calls as [|o' calls'].
  - reflexivity.
  - rewrite IH by discriminate. reflexivity.
Qed.

Lemma X11_latest_explicit_reason_wins_witness :
  pendingReason
    (request_all [mkWakeOpts (Some "a") None; mkWakeOpts (Some "b") (Some 5);
                  mkWakeOpts None None] init) = Some "b".
Proof.
  exact (X11_latest_explicit_reason_wins
           [mkWakeOpts (Some "a") None; mkWakeOpts (Some "b") (Some 5);
            mkWakeOpts None None] init ltac:(discriminate)).
Defined.



(** *** Wake cycles from any idle state *)

Lemma cycle_begins (h : HeartbeatWakeHandler) (opts : WakeOpts) (w : World) :
  idle_with_handler h w ->
  awaiting_timer h (invocations w) (warnings w)
    (nullish (o_reason opts) (nullish (pendingReason w) "requested")) 0
    (requestHeartbeatNow opts w).
Proof.
  intros (Hh & Ht & Hts & Hs & Hr & Hsc & Hrc).
  unfold requestHeartbeatNow. rewrite schedule_idle by exact Ht.
  unfold awaiting_timer. cbn. rewrite Hts, app_nil_r. cbn.
  repeat split; eauto.
Qed.

Lemma cycle_fires (h : HeartbeatWakeHandler) (base : list Invocation)
    (ws : list string) (p : string) (k : nat) (w : World)
    (answer : nat -> Settled) (fuel : nat) :
  awaiting_timer h base ws p k w ->
  exists w',
    in_invocation h base ws p k w'
    /\ drive answer (S fuel) w = drive answer fuel w'.
Proof.
  intros ((t & x & Ht & Hts & Hx) & Hh & Hp & Hrun & Hsc & Hsus & Hrc
          & Hinv & Hwarn).
  exists (begun h (delay x) (set_now (Nat.max (now w) (deadline x)) w)).
  split.
  - unfold in_invocation. cbn. rewrite Hp, Hsus, Hinv.
    repeat split; eauto.
    rewrite <- app_assoc. f_equal. symmetry. apply (repeat_cons k).
  - cbn [drive]. rewrite Hsus, Hts. subst t.
    rewrite (fire_when_idle _ (tid x) x h); cbn; auto. lia.
Qed.

Lemma cycle_settles (h : HeartbeatWakeHandler) (base : list Invocation)
    (ws : list string) (p : string) (k : nat) (w : World) (o : Settled) :
  in_invocation h base ws p k w ->
  exists w',
    handler_settles 0 o w = Some w'
    /\ invocations w' = invocations w
    /\ (transient o = true -> k < MAX_RETRIES ->
        awaiting_timer h base ws p (S k) w')
    /\ (transient o = true -> MAX_RETRIES <= k ->
        cycle_over h w' /\ warnings w' = ws ++ [exhausted_message (why o)])
    /\ (transient o = false -> cycle_over h w' /\ warnings w' = ws).
Proof.
  intros (Ht & Hts & Hh & Hp & Hrun & Hsc & (c & Hsus) & Hrc & Hinv & Hwarn).
  destruct w as [h0 p0 sc ru ti rc nw ts ni su iv wa]. cbn in *. subst.
  unfold handler_settles. cbn [suspended lookup list_lookup].
  eexists. split; [reflexivity|].
  split; [apply resume_frame|].
  split; [|split].
  - intros Ho Hk. rewrite resume_transient by exact Ho.
    rewrite retry_below_max by exact Hk.
    unfold schedule, callback_finally. cbn.
    destruct (_ || _); unfold schedule, awaiting_timer; cbn;
      repeat split; eauto.
  - intros Ho Hk. rewrite resume_transient by exact Ho.
    rewrite retry_at_max by exact Hk.
    unfold callback_finally, cycle_over, idle_with_handler. cbn.
    repeat split; eauto.
  - intros Ho. rewrite resume_permanent by exact Ho.
    unfold callback_finally, cycle_over, idle_with_handler. cbn.
    repeat split; eauto.
Qed.

Lemma cycle_drive_settles (h : HeartbeatWakeHandler) (base : list Invocation)
    (ws : list string) (p : string) (k : nat) (w w' : World)
    (answer : nat -> Settled) (fuel : nat) :
  in_invocation h base ws p k w ->
  handler_settles 0 (answer (length base + k)) w = Some w' ->
  drive answer (S fuel) w = drive answer fuel w'.
Proof.
  intros (_ & _ & _ & _ & _ & _ & (c & Hsus) & _ & Hinv & _) Hs.
  cbn [drive]. rewrite Hsus, Hinv, length_app, repeat_length.
  replace (length base + S k - 1) with (length base + k) by lia.
  now rewrite Hs.
Qed.

Lemma drive_cycle_over (h : HeartbeatWakeHandler) (w : World)
    (answer : nat -> Settled) (fuel : nat) :
  cycle_over h w -> drive answer fuel w = w.
Proof.
  intros [(_ & _ & Hts & Hs & _) _]. destruct fuel; cbn; now rewrite ?Hs, ?Hts.
Qed.

Section Cycle.

Variable h : HeartbeatWakeHandler.
Variable base : list Invocation.
Variable ws : list string.
Variable p : string.
Variable answer : nat -> Settled.

Lemma drive_transients (m : nat) :
  forall k w,
    awaiting_timer h base ws p k w -> k + m <= MAX_RETRIES ->
    (forall j, k <= j < k + m -> transient (answer (length base + j)) = true) ->
    awaiting_timer h base ws p (k + m) (drive answer (2 * m) w).
Proof.
  induction m as [|m IH]; intros k w Hw Hk Htr.
  - rewrite Nat.add_0_r. exact Hw.
  - replace (2 * S m) with (S (S (2 * m))) by lia.
    destruct (cycle_fires h base ws p k w answer (S (2 * m)) Hw)
      as (w1 & Hi & Hd). rewrite Hd.
    destruct (cycle_settles h base ws p k w1 (answer (length base + k)) Hi)
      as (w2 & Hs & _ & Hnext & _).
    rewrite (cycle_drive_settles h base ws p k w1 w2 answer (2 * m) Hi Hs).
    replace (k + S m) with (S k + m) by lia.
    apply IH; [|lia|].
    + apply Hnext; [apply Htr; lia | lia].
    + intros j Hj. apply Htr. lia.
Qed.

(** The last two steps of a cycle: the timer fires, the handler settles. *)
Lemma drive_last_steps (k fuel : nat) (w : World) :
  awaiting_timer h base ws p k w -> 2 <= fuel ->
  exists w1 w2,
    in_invocation h base ws p k w1
    /\ handler_settles 0 (answer (length base + k)) w1 = Some w2
    /\ (cycle_over h w2 -> drive answer fuel w = w2).
Proof.
  intros Hw Hfuel.
  destruct fuel as [|[|fuel]]; try lia.
  destruct (cycle_fires h base ws p k w answer (S fuel) Hw) as (w1 & Hi & Hd).
  destruct (cycle_settles h base ws p k w1 (answer (length base + k)) Hi)
    as (w2 & Hs & _).
  exists w1, w2. split; [exact Hi|]. split; [exact Hs|].
  intros Hover. rewrite Hd.
  rewrite (cycle_drive_settles h base ws p k w1 w2 answer fuel Hi Hs).
  now apply drive_cycle_over with (h := h).
Qed.

End Cycle.

(** X13: from any state with a registered handler, no timer, no run and no
    retries used, a wake request whose next 11 invocations all end
    transiently (a non-disabled skip or a rejected promise, in any mix)
    leads to exactly those 11 invocations, each given the requested reason;
    the 11th completion logs one warning, naming that skip's reason or
    error for a rejection, and the scheduler is idle again with retryCount
    0 and nothing pending. *)
Theorem X13_transient_results_use_the_whole_budget
    (h : HeartbeatWakeHandler) (opts : WakeOpts) (w : World)
    (answer : nat -> Settled) (fuel : nat) :
  idle_with_handler h w ->
  (forall j, j <= MAX_RETRIES ->
             transient (answer (length (invocations w) + j)) = true) ->
  22 <= fuel ->
  let p := nullish (o_reason opts) (nullish (pendingReason w) "requested") in
  let wf := drive answer fuel (requestHeartbeatNow opts w) in
  invocations wf = invocations w ++ repeat (mkInvocation h (Some p)) 11
  /\ warnings wf =
     warnings w ++
       [exhausted_message (why (answer (length (invocations w) + MAX_RETRIES)))]
  /\ idle_with_handler h wf /\ pendingReason wf = None.
Proof.
  intros Hidle Htr Hfuel p wf. subst wf.
  assert (H0 := cycle_begins h opts w Hidle). fold p in H0.
  replace fuel with (2 * MAX_RETRIES + (fuel - 2 * MAX_RETRIES))
    by (unfold MAX_RETRIES; lia).
  rewrite drive_add.
  assert (H10 := drive_transients h (invocations w) (warnings w) p answer
                   MAX_RETRIES 0 _ H0 (Nat.le_refl _)
                   (fun j Hj => Htr j ltac:(lia))).
  cbn [Nat.add] in H10.
  destruct (drive_last_steps h (invocations w) (warnings w) p answer
              MAX_RETRIES (fuel - 2 * MAX_RETRIES) _ H10
              ltac:(unfold MAX_RETRIES; lia))
    as (w1 & w2 & Hi & Hs & Hd).
  destruct (cycle_settles h (invocations w) (warnings w) p MAX_RETRIES w1
              (answer (length (invocations w) + MAX_RETRIES)) Hi)
    as (w2' & Hs' & Hinv & _ & Hend & _).
  rewrite Hs in Hs'. inversion Hs'; subst w2'.
  destruct (Hend (Htr _ (Nat.le_refl _)) (Nat.le_refl _)) as [Hover Hwarn].
  rewrite (Hd Hover).
  destruct Hi as (_ & _ & _ & _ & _ & _ & _ & _ & Hinv1 & _).
  split; [rewrite Hinv, Hinv1; reflexivity|].
  split; [exact Hwarn|]. exact Hover.
Qed.

Lemma X13_transient_results_use_the_whole_budget_witness :
  let wf := drive (fun _ => rejected) 30
              (requestHeartbeatNow (mkWakeOpts (Some "hook:wake") None)
                 (setHeartbeatWakeHandler (Some 1) init)) in
  invocations wf = repeat (mkInvocation 1 (Some "hook:wake")) 11
  /\ warnings wf = [exhausted_message "error"]
  /\ retryCount wf = 0 /\ timeouts wf = [].
Proof.
  intros wf.
  destruct (X13_transient_results_use_the_whole_budget 1
              (mkWakeOpts (Some "hook:wake") None)
              (setHeartbeatWakeHandler (Some 1) init) (fun _ => rejected) 30)
    as (Hi & Hw & (_ & _ & Hts & _ & _ & _ & Hrc) & _).
  - repeat split.
  - intros j _. reflexivity.
  - lia.
  - split; [exact Hi|]. split; [exact Hw|]. split; [exact Hrc | exact Hts].
Defined.

(** X14: from the same kind of state, a wake request whose first k
    invocations end transiently (k at most 10) and whose next one ends with
    a ran or failed result or a disabled skip leads to exactly k + 1
    invocations, each given the requested reason, logs nothing, and leaves
    the scheduler idle with retryCount 0 and nothing pending: the retries
    used are forgotten, and the next wake request has the whole budget
    again. *)
Theorem X14_final_result_restores_the_budget
    (h : HeartbeatWakeHandler) (opts : WakeOpts) (w : World)
    (answer : nat -> Settled) (k fuel : nat) :
  idle_with_handler h w -> k <= MAX_RETRIES ->
  (forall j, j < k -> transient (answer (length (invocations w) + j)) = true) ->
  transient (answer (length (invocations w) + k)) = false ->
  2 * k + 2 <= fuel ->
  let p := nullish (o_reason opts) (nullish (pendingReason w) "requested") in
  let wf := drive answer fuel (requestHeartbeatNow opts w) in
  invocations wf = invocations w ++ repeat (mkInvocation h (Some p)) (S k)
  /\ warnings wf = warnings w
  /\ idle_with_handler h wf /\ pendingReason wf = None.
Proof.
  intros Hidle Hk Htr Hlast Hfuel p wf. subst wf.
  assert (H0 := cycle_begins h opts w Hidle). fold p in H0.
  replace fuel with (2 * k + (fuel - 2 * k)) by lia.
  rewrite drive_add.
  assert (Hk' := drive_transients h (invocations w) (warnings w) p answer
                   k 0 _ H0 Hk (fun j Hj => Htr j ltac:(lia))).
  cbn [Nat.add] in Hk'.
  destruct (drive_last_steps h (invocations w) (warnings w) p answer
              k (fuel - 2 * k) _ Hk' ltac:(lia))
    as (w1 & w2 & Hi & Hs & Hd).
  destruct (cycle_settles h (invocations w) (warnings w) p k w1
              (answer (length (invocations w) + k)) Hi)
    as (w2' & Hs' & Hinv & _ & _ & Hend).
  rewrite Hs in Hs'. inversion Hs'; subst w2'.
  destruct (Hend Hlast) as [Hover Hwarn].
  rewrite (Hd Hover).
  destruct Hi as (_ & _ & _ & _ & _ & _ & _ & _ & Hinv1 & _).
  split; [congruence|]. split; [exact Hwarn|]. exact Hover.
Qed.

Lemma X14_final_result_restores_the_budget_witness :
  let wf := drive two_cycles 50 hook_wake_requested in
  invocations wf = repeat (mkInvocation 1 (Some "hook:wake")) 3
  /\ warnings wf = [] /\ retryCount wf = 0 /\ pendingReason wf = None.
Proof.
  intros wf.
  destruct (X14_final_result_restores_the_budget 1
              (mkWakeOpts (Some "hook:wake") None)
              (setHeartbeatWakeHandler (Some 1) init) two_cycles 2 50)
    as (Hi & Hw & (_ & _ & _ & _ & _ & _ & Hrc) & Hp).
  - repeat split.
  - unfold MAX_RETRIES. lia.
  - intros j Hj. destruct j as [|[|j]]; [reflexivity | reflexivity | lia].
  - reflexivity.
  - lia.
  - split; [exact Hi|]. split; [exact Hw|]. split; [exact Hrc | exact Hp].
Defined.

End WakeExtras.
